(** * ScrapeMaster: a shallow embedding of [scraper.py]

    The Python program is embedded as Rocq functions over an explicit
    environment: the files of the working directory, the records appended
    to the dataset, the outside world (network and search provider) and a
    ghost trace of collaborator calls.  Python objects that come out of
    [json.load] are values of [pyobj]; the operations the program applies
    to them ([not x], [x[k] = v], [x.keys()], [k in x]) are modelled with
    the exceptions Python raises on the wrong kind of object. *)

From Stdlib Require Import ZArith String Ascii List Lia Bool.
From stdpp Require Import base option gmap strings list pretty.

Set Warnings "-register-all".

Local Open Scope string_scope.
Local Open Scope Z_scope.

(** ** Python objects and exceptions *)

(** The values [json.load] can return, and the program builds.  A [PDict]
    keeps its items in insertion order, like a Python dict. *)
Inductive pyobj : Type :=
| PNone
| PBool (b : bool)
| PInt (z : Z)
| PStr (s : string)
| PList (l : list pyobj)
| PDict (d : list (string * pyobj)).

(** An exception object: its class name and [str(e)].  Every exception of
    the model is an instance of Python's [Exception], the class the
    program's handlers name. *)
Record pyexc : Type := PyExc { exc_type : string; exc_str : string }.

Definition Exception (msg : string) : pyexc := PyExc "Exception" msg.
Definition TypeError (msg : string) : pyexc := PyExc "TypeError" msg.
Definition ValueError (msg : string) : pyexc := PyExc "ValueError" msg.
Definition AttributeError (msg : string) : pyexc := PyExc "AttributeError" msg.
Definition FileNotFoundError (msg : string) : pyexc := PyExc "FileNotFoundError" msg.
Definition ZeroDivisionError (msg : string) : pyexc := PyExc "ZeroDivisionError" msg.
Definition JSONDecodeError (msg : string) : pyexc := PyExc "JSONDecodeError" msg.
Definition UnicodeDecodeError (msg : string) : pyexc := PyExc "UnicodeDecodeError" msg.
Definition OSError (msg : string) : pyexc := PyExc "OSError" msg.
Definition IsADirectoryError (msg : string) : pyexc := PyExc "IsADirectoryError" msg.

Definition type_name (o : pyobj) : string :=
  match o with
  | PNone => "NoneType"
  | PBool _ => "bool"
  | PInt _ => "int"
  | PStr _ => "str"
  | PList _ => "list"
  | PDict _ => "dict"
  end.

(** [bool(o)]: the truth value Python gives an object. *)
Definition truthy (o : pyobj) : bool :=
  match o with
  | PNone => false
  | PBool b => b
  | PInt z => negb (z =? 0)
  | PStr s => negb (String.eqb s "")
  | PList l => match l with [] => false | _ => true end
  | PDict d => match d with [] => false | _ => true end
  end.

(** ** Dict items, in insertion order *)

Module Dict.

Definition keys {V} (d : list (string * V)) : list string := d.*1.

(** [k in d] *)
Definition mem {V} (k : string) (d : list (string * V)) : bool :=
  bool_decide (k ∈ keys d).

(** [d.get(k)] *)
Fixpoint get {V} (k : string) (d : list (string * V)) : option V :=
  match d with
  | [] => None
  | (k', v') :: d' => if String.eqb k' k then Some v' else get k d'
  end.

(** [d[k] = v]: an existing key keeps its position, a new key goes last. *)
Fixpoint set {V} (k : string) (v : V) (d : list (string * V)) : list (string * V) :=
  match d with
  | [] => [(k, v)]
  | (k', v') :: d' =>
      if String.eqb k' k then (k', v) :: d' else (k', v') :: set k v d'
  end.

(** A Python dict holds every key once. *)
Definition wf {V} (d : list (string * V)) : Prop := NoDup (keys d).

Definition disjoint {V W} (d1 : list (string * V)) (d2 : list (string * W)) : Prop :=
  ∀ k, k ∈ keys d1 → k ∈ keys d2 → False.

End Dict.

(** ** Strings

    A Python [str] is held as its UTF-8 encoding, one [ascii] for each
    byte.  The comma, the newline, the slash and the dot are single bytes
    that occur in the encoding of no other character, so splitting a
    string at one of them splits it at the same places as Python does. *)

(** [needle in hay] for two strings. *)
Fixpoint is_substring (needle hay : string) : bool :=
  String.prefix needle hay ||
  match hay with
  | EmptyString => false
  | String _ hay' => is_substring needle hay'
  end.

(** [s.split(sep)] for a one-character separator: never an empty list. *)
Fixpoint split_on (sep : ascii) (s : string) : list string :=
  match s with
  | EmptyString => [EmptyString]
  | String c s' =>
      if Ascii.eqb c sep then EmptyString :: split_on sep s'
      else match split_on sep s' with
           | h :: t => String c h :: t
           | [] => [String c EmptyString]
           end
  end.

(** The ASCII characters [str.strip()] removes. *)
Definition is_space (c : ascii) : bool :=
  let n := nat_of_ascii c in
  ((9 <=? n) && (n <=? 13) || (28 <=? n) && (n <=? 32))%nat.

Definition byte_is (n : nat) (c : ascii) : bool := Nat.eqb (nat_of_ascii c) n.

Definition byte_in (lo hi : nat) (c : ascii) : bool :=
  ((lo <=? nat_of_ascii c) && (nat_of_ascii c <=? hi))%nat.

(** The other characters it removes ([str.isspace]), by their encodings:
    U+0085 and U+00A0 in two bytes; U+1680, U+2000 to U+200A, U+2028,
    U+2029, U+202F, U+205F and U+3000 in three. *)
Definition is_space2 (c1 c2 : ascii) : bool :=
  byte_is 194 c1 && (byte_is 133 c2 || byte_is 160 c2).

Definition is_space3 (c1 c2 c3 : ascii) : bool :=
  byte_is 225 c1 && byte_is 154 c2 && byte_is 128 c3
  || byte_is 226 c1 && byte_is 128 c2 &&
       (byte_in 128 138 c3 || byte_is 168 c3 || byte_is 169 c3 || byte_is 175 c3)
  || byte_is 226 c1 && byte_is 129 c2 && byte_is 159 c3
  || byte_is 227 c1 && byte_is 128 c2 && byte_is 128 c3.

(** The number of bytes of the white-space character [s] starts with,
    [0] when it starts with none. *)
Definition space_width (s : string) : nat :=
  match s with
  | String c1 s1 =>
      if is_space c1 then 1%nat
      else match s1 with
           | String c2 s2 =>
               if is_space2 c1 c2 then 2%nat
               else match s2 with
                    | String c3 _ => if is_space3 c1 c2 c3 then 3%nat else 0%nat
                    | EmptyString => 0%nat
                    end
           | EmptyString => 0%nat
           end
  | EmptyString => 0%nat
  end.

(** [s.lstrip()]; [skip] counts the bytes still to drop of the white-space
    character being removed. *)
Fixpoint lstrip_from (skip : nat) (s : string) : string :=
  match s with
  | EmptyString => EmptyString
  | String _ s' =>
      match skip with
      | S k => lstrip_from k s'
      | O => match space_width s with
             | O => s
             | S k => lstrip_from k s'
             end
      end
  end.

Definition lstrip (s : string) : string := lstrip_from 0 s.

(** [s] is white space only (after [skip] more bytes of a white-space
    character). *)
Fixpoint all_space_from (skip : nat) (s : string) : bool :=
  match s with
  | EmptyString => Nat.eqb skip 0
  | String _ s' =>
      match skip with
      | S k => all_space_from k s'
      | O => match space_width s with
             | O => false
             | S k => all_space_from k s'
             end
      end
  end.

(** [s.rstrip()]: the string is cut where only white space follows. *)
Fixpoint rstrip (s : string) : string :=
  match s with
  | EmptyString => EmptyString
  | String c s' => if all_space_from 0 s then EmptyString else String c (rstrip s')
  end.

Definition strip (s : string) : string := rstrip (lstrip s).

(** The characters of a string, each as a string of its own: a byte
    starts a new character unless it is a continuation byte (0x80 to
    0xBF) of the one before. *)
Definition is_continuation (c : ascii) : bool := byte_in 128 191 c.

Fixpoint characters (s : string) : list string :=
  match s with
  | EmptyString => []
  | String c s' =>
      match s' with
      | EmptyString => [String c EmptyString]
      | String c' _ =>
          if is_continuation c' then
            match characters s' with
            | h :: t => String c h :: t
            | [] => [String c EmptyString]
            end
          else String c EmptyString :: characters s'
      end
  end.

(** [Path(p).name]: the last component of the path. *)
Definition path_name (p : string) : string :=
  List.last (List.filter (λ c, negb (String.eqb c "") && negb (String.eqb c "."))
               (split_on "/" p)) "".

(** The part of [s] from its last dot on, if it has a dot. *)
Fixpoint from_last_dot (s : string) : option string :=
  match s with
  | EmptyString => None
  | String c s' =>
      match from_last_dot s' with
      | Some r => Some r
      | None => if Ascii.eqb c "." then Some s else None
      end
  end.

(** [Path(p).suffix]: from the last dot of the name, unless that dot is the
    first or the last character. *)
Definition path_suffix (p : string) : string :=
  match path_name p with
  | EmptyString => ""
  | String _ rest =>
      match from_last_dot rest with
      | Some (String _ (String c r)) => String "." (String c r)
      | _ => ""
      end
  end.

(** The non-empty stripped lines of a text. *)
Definition stripped_lines (content : string) : list string :=
  List.filter (λ l, negb (String.eqb l "")) (map strip (split_on "010" content)).

(** ** Operations on objects, with Python's type errors *)

(** [o[k] = v] with a string key. *)
Definition setitem (o : pyobj) (k : string) (v : pyobj) : pyexc + pyobj :=
  match o with
  | PDict d => inr (PDict (Dict.set k v d))
  | PList _ => inl (TypeError "list indices must be integers or slices, not str")
  | _ => inl (TypeError ("'" +:+ type_name o +:+ "' object does not support item assignment"))
  end.

(** [o.keys()] *)
Definition keys (o : pyobj) : pyexc + list string :=
  match o with
  | PDict d => inr (Dict.keys d)
  | _ => inl (AttributeError ("'" +:+ type_name o +:+ "' object has no attribute 'keys'"))
  end.

(** [k in o] for a string [k]. *)
Definition contains (k : string) (o : pyobj) : pyexc + bool :=
  match o with
  | PDict d => inr (Dict.mem k d)
  | PList l =>
      inr (existsb (λ x, match x with PStr s => String.eqb s k | _ => false end) l)
  | PStr s => inr (is_substring k s)
  | _ => inl (TypeError ("argument of type '" +:+ type_name o +:+ "' is not iterable"))
  end.

(** [sep.join(o)] *)
Definition join (sep : string) (o : pyobj) : pyexc + string :=
  let strs := fix strs (l : list pyobj) : option (list string) :=
    match l with
    | [] => Some []
    | PStr s :: l' => cons s <$> strs l'
    | _ => None
    end in
  match o with
  | PList l =>
      match strs l with
      | Some ss => inr (String.concat sep ss)
      | None => inl (TypeError "sequence item: expected str instance")
      end
  | PDict d => inr (String.concat sep (Dict.keys d))
  | PStr s => inr (String.concat sep (characters s))
  | _ => inl (TypeError "can only join an iterable")
  end.

(** ** The monad of Python computations

    A computation runs on an environment [E], changes it, and returns a
    value or raises.  What it did to the environment before raising
    stays done. *)

Definition py (E A : Type) : Type := E → (pyexc + A) * E.

Definition ret {E A} (a : A) : py E A := λ env, (inr a, env).

Definition raise {E A} (e : pyexc) : py E A := λ env, (inl e, env).

Definition bind {E A B} (c : py E A) (k : A → py E B) : py E B :=
  λ env, match c env with
         | (inr a, env') => k a env'
         | (inl e, env') => (inl e, env')
         end.

(** [try: body except Exception as e: handler e] *)
Definition try_except {E A} (body : py E A) (handler : pyexc → py E A) : py E A :=
  λ env, match body env with
         | (inr a, env') => (inr a, env')
         | (inl e, env') => handler e env'
         end.

(** A pure operation that may raise. *)
Definition lift {E A} (r : pyexc + A) : py E A := λ env, (r, env).

Declare Scope py_scope.
Delimit Scope py_scope with py.
Notation "x <- c ;; k" := (bind c (λ x, k))
  (at level 100, c at next level, right associativity) : py_scope.
Notation "c ;;; k" := (bind c (λ _, k))
  (at level 100, right associativity) : py_scope.
Local Open Scope py_scope.

(** [for x in xs: body], with the loop-carried object [s]. *)
Fixpoint for_ {E A S} (xs : list A) (body : A → S → py E S) (s : S) : py E S :=
  match xs with
  | [] => ret s
  | x :: xs' => s' <- body x s ;; for_ xs' body s'
  end.

(** [[x for x in xs if cond x]] where the test may raise. *)
Fixpoint filter_ {E A} (cond : A → py E bool) (xs : list A) : py E (list A) :=
  match xs with
  | [] => ret []
  | x :: xs' =>
      b <- cond x ;;
      rest <- filter_ cond xs' ;;
      ret (if b then x :: rest else rest)
  end.

(** ** Parsed documents

    Markup is represented by the tree [html.parser] builds from it; the
    operations are BeautifulSoup's. *)

(** The strings bs4 tells apart from plain text: comments, CDATA
    sections, processing instructions, declarations and doctypes, and
    what the parser finds inside a script, style, template, rt or rp
    element. *)
Inductive string_class : Type :=
| Comment
| CData
| ProcessingInstruction
| Declaration
| Doctype
| Script
| Stylesheet
| TemplateString
| RubyTextString
| RubyParenthesisString.

Inductive node : Type :=
| NavigableString (s : string)
| SpecialString (cls : string_class) (s : string)
| Tag (name : string) (contents : list node).

(** Markup, as the tree of its elements and strings. *)
Definition html : Type := list node.

(** The class the parser gives the plain strings inside an element of
    that name ([string_containers]). *)
Definition string_container (name : string) : option string_class :=
  if String.eqb name "script" then Some Script
  else if String.eqb name "style" then Some Stylesheet
  else if String.eqb name "template" then Some TemplateString
  else if String.eqb name "rt" then Some RubyTextString
  else if String.eqb name "rp" then Some RubyParenthesisString
  else None.

(** What the parser makes of a node inside the nearest such element. *)
Fixpoint parsed (container : option string_class) (n : node) : node :=
  match n with
  | NavigableString s =>
      match container with
      | Some cls => SpecialString cls s
      | None => NavigableString s
      end
  | SpecialString cls s => SpecialString cls s
  | Tag name contents =>
      Tag name (map (parsed (match string_container name with
                             | Some cls => Some cls
                             | None => container
                             end)) contents)
  end.

(** [BeautifulSoup(html, 'html.parser')]: the soup is its top-level
    nodes, a plain string inside a script, style, template, rt or rp
    element being of the class of that element. *)
Definition BeautifulSoup (markup : html) : list node := map (parsed None) markup.

(** A node and everything below it, in document order. *)
Fixpoint descendants (n : node) : list node :=
  n :: match n with
       | NavigableString _ | SpecialString _ _ => []
       | Tag _ contents => flat_map descendants contents
       end.

(** [tag.interesting_string_types] for a tag of that name: plain text and
    CDATA; for a script, style, template, rt or rp tag, the strings of
    its own class only.  [None] stands for the class of plain text. *)
Definition interesting_string_types (name : string) (cls : option string_class) : bool :=
  match string_container name, cls with
  | Some Script, Some Script
  | Some Stylesheet, Some Stylesheet
  | Some TemplateString, Some TemplateString
  | Some RubyTextString, Some RubyTextString
  | Some RubyParenthesisString, Some RubyParenthesisString => true
  | Some _, _ => false
  | None, None | None, Some CData => true
  | None, Some _ => false
  end.

(** A string node of a class the tag named [name] keeps. *)
Definition interesting_string (name : string) (n : node) : option string :=
  match n with
  | NavigableString s => if interesting_string_types name None then Some s else None
  | SpecialString cls s => if interesting_string_types name (Some cls) then Some s else None
  | Tag _ _ => None
  end.

(** [tag.get_text()]: the strings below the tag that are of a class the
    tag keeps, in document order.  Comments, and scripts, styles and
    templates below another tag, are left out. *)
Definition get_text (n : node) : string :=
  match n with
  | NavigableString s | SpecialString _ s => s
  | Tag name contents =>
      String.concat "" (omap (interesting_string name) (flat_map descendants contents))
  end.

Definition has_name (names : list string) (n : node) : bool :=
  match n with
  | NavigableString _ | SpecialString _ _ => false
  | Tag name _ => bool_decide (name ∈ names)
  end.

(** [soup.find_all(names)] *)
Definition find_all (names : list string) (soup : list node) : list node :=
  List.filter (has_name names) (flat_map descendants soup).

(** [soup.title], that is [soup.find('title')] *)
Definition soup_title (soup : list node) : option node :=
  head (find_all ["title"] soup).

(** [tag.string]: the single string child, of any class, through
    single-child tags; [None] for a tag with no child or with several. *)
Fixpoint tag_string (n : node) : option string :=
  match n with
  | NavigableString s | SpecialString _ s => Some s
  | Tag _ [c] => tag_string c
  | Tag _ _ => None
  end.

(** ** The objects of the program *)

(** What [session.get(url)] hands back: the status and what
    [response.text()] evaluates to. *)
Record response : Type := Response {
  status : Z;
  text : pyexc + html
}.

(** A file of the working directory, by what reading it gives: a JSON
    document, text that is no JSON document, or bytes that are no text in
    the encoding [open] uses. *)
Inductive file_body : Type :=
| JsonDoc (v : pyobj)
| PlainText (s : string)
| Undecodable (bytes : string).

(** Calls to the collaborators and to [scrape_website], in program order. *)
Inductive event : Type :=
| EvSearch (topic : string) (num_results : Z)
| EvScrape (url : string).

Record ScrapeMaster : Type := mkScrapeMaster {
  num_websites : Z;
  topics : list string;
  urls_per_topic : Z;
  master_urls : pyobj;
  completed_urls : pyobj;
  error_urls : pyobj
}.

Definition master_file : string := "websites_master.json".
Definition completed_file : string := "websites_completed.json".
Definition errors_file : string := "websites_errors.json".

Definition set_master_urls (self : ScrapeMaster) (o : pyobj) : ScrapeMaster :=
  mkScrapeMaster (num_websites self) (topics self) (urls_per_topic self)
    o (completed_urls self) (error_urls self).

Definition set_completed_urls (self : ScrapeMaster) (o : pyobj) : ScrapeMaster :=
  mkScrapeMaster (num_websites self) (topics self) (urls_per_topic self)
    (master_urls self) o (error_urls self).

Definition set_error_urls (self : ScrapeMaster) (o : pyobj) : ScrapeMaster :=
  mkScrapeMaster (num_websites self) (topics self) (urls_per_topic self)
    (master_urls self) (completed_urls self) o.

(** ** The environment *)

Record Env (World : Type) : Type := mkEnv {
  world : World;                    (* the network and the search provider *)
  fs : gmap string file_body;       (* the files, by the paths that name them *)
  dataset : list pyobj;             (* lines appended to final_dataset/dataset.jsonl *)
  trace : list event                (* ghost: the calls made so far *)
}.
Arguments mkEnv {World}.
Arguments world {World}.
Arguments fs {World}.
Arguments dataset {World}.
Arguments trace {World}.

(** The parsed command line: [--websites] and [--topics]. *)
Record Args : Type := mkArgs { args_websites : Z; args_topics : string }.

Section Program.

Context {World : Type}.

(** The collaborators: [session.get(url, headers=..., timeout=30)] and
    googlesearch's [search(topic, num_results=n, lang="en")], run to the
    end of its generator.  Each may raise and may change the world. *)
Variable session_get : string → World → (pyexc + response) * World.
Variable search : string → Z → World → (pyexc + list string) * World.

(** What reading a topic file gives: [yaml.safe_load(f)], [f.read()]
    (which raises on bytes that are no text), and
    [re.findall(r'[-*]\s*(.+)', content)]. *)
Variable yaml_safe_load : file_body → pyexc + pyobj.
Variable read : file_body → pyexc + string.
Variable re_findall_bullets : string → list string.

(** What the operating system answers when [Path(p).exists()] asks about
    a path that is none of the files of [fs]: [False] when nothing is
    there, [True] for a directory (the empty path and [.] among them),
    or the [OSError] that is not turned into [False] (a name of more than
    255 bytes, for one). *)
Variable os_exists : string → World → pyexc + bool.

Local Abbreviation Env := (Env World).

Definition tell (ev : event) : py Env unit :=
  λ env, (inr tt, mkEnv (world env) (fs env) (dataset env) (trace env ++ [ev])).

Definition call {A} (f : World → (pyexc + A) * World) : py Env A :=
  λ env, let (r, w) := f (world env) in
         (r, mkEnv w (fs env) (dataset env) (trace env)).

(** [with open(path, 'w') as f: json.dump(o, f, indent=2)] *)
Definition json_dump (o : pyobj) (path : string) : py Env unit :=
  λ env, (inr tt, mkEnv (world env) (<[path := JsonDoc o]> (fs env))
                    (dataset env) (trace env)).

(** [with open(self.output_file, 'a') as f: f.write(json.dumps(o) + '\n')] *)
Definition append_jsonl (o : pyobj) : py Env unit :=
  λ env, (inr tt, mkEnv (world env) (fs env) (dataset env ++ [o]) (trace env)).

(** [json.load] of an open file.  Of the messages only the class of the
    exception is meant: the text depends on where decoding stops. *)
Definition json_load (body : file_body) : pyexc + pyobj :=
  match body with
  | JsonDoc v => inr v
  | PlainText _ => inl (JSONDecodeError "Expecting value")
  | Undecodable _ => inl (UnicodeDecodeError "'utf-8' codec can't decode byte")
  end.

Definition _load_or_create_json (file_path : string) : py Env pyobj :=
  λ env, match fs env !! file_path with
         | Some body => lift (json_load body) env
         | None => ret (PDict []) env
         end.

(** [a // b] *)
Definition floordiv (a b : Z) : pyexc + Z :=
  if b =? 0 then inl (ZeroDivisionError "integer division or modulo by zero")
  else inr (a / b).

Definition __init__ (num_websites : Z) (topics : string) : py Env ScrapeMaster :=
  let topics := map strip (split_on "," topics) in
  urls_per_topic <- lift (floordiv num_websites (Z.of_nat (length topics))) ;;
  master_urls <- _load_or_create_json master_file ;;
  completed_urls <- _load_or_create_json completed_file ;;
  error_urls <- _load_or_create_json errors_file ;;
  ret (mkScrapeMaster num_websites topics urls_per_topic
         master_urls completed_urls error_urls).

Definition _search_google_sync (self : ScrapeMaster) (topic : string)
  : py Env (list string) :=
  try_except
    (tell (EvSearch topic (urls_per_topic self)) ;;;
     call (search topic (urls_per_topic self)))
    (λ e, ret []).

Definition search_google (self : ScrapeMaster) (topic : string)
  : py Env (list string) :=
  _search_google_sync self topic.

(** The value of ['title']: [soup.title.string if soup.title else '']. *)
Definition title_of (soup : list node) : pyobj :=
  match soup_title soup with
  | Some t => match tag_string t with Some s => PStr s | None => PNone end
  | None => PStr ""
  end.

Definition content_tags : list string := ["p"; "h1"; "h2"; "h3"; "h4"; "h5"; "h6"].

(** Returns the object as the call leaves it, and the result. *)
Definition scrape_website (self : ScrapeMaster) (url : string)
  : py Env (ScrapeMaster * pyobj) :=
  tell (EvScrape url) ;;;
  try_except
    (response <- call (session_get url) ;;
     if status response =? 200 then
       html <- lift (text response) ;;
       let soup := BeautifulSoup html in
       let text := String.concat " " (map get_text (find_all content_tags soup)) in
       ret (self, PDict [("url", PStr url);
                         ("title", title_of soup);
                         ("content", PStr text)])
     else
       raise (Exception ("HTTP " +:+ pretty (status response))))
    (λ e,
       error_urls' <- lift (setitem (error_urls self) url (PStr (exc_str e))) ;;
       ret (set_error_urls self error_urls', PNone)).

(** The body of [for topic in self.topics] *)
Definition collect_topic (topic : string) (self : ScrapeMaster)
  : py Env ScrapeMaster :=
  urls <- search_google self topic ;;
  self <- for_ urls
            (λ url self,
               m <- lift (setitem (master_urls self) url (PStr topic)) ;;
               ret (set_master_urls self m))
            self ;;
  json_dump (master_urls self) master_file ;;;
  ret self.

(** The test of the comprehension that builds [pending_urls] *)
Definition is_pending (self : ScrapeMaster) (url : string) : py Env bool :=
  c <- lift (contains url (completed_urls self)) ;;
  if c then ret false
  else e <- lift (contains url (error_urls self)) ;; ret (negb e).

(** The body of [for url in pending_urls] *)
Definition process_url (url : string) (self : ScrapeMaster)
  : py Env ScrapeMaster :=
  r <- scrape_website self url ;;
  let (self, result) := r in
  self <- (if truthy result then
             c <- lift (setitem (completed_urls self) url result) ;;
             append_jsonl result ;;;
             ret (set_completed_urls self c)
           else ret self) ;;
  json_dump (completed_urls self) completed_file ;;;
  json_dump (error_urls self) errors_file ;;;
  ret self.

Definition pending_urls (self : ScrapeMaster) : py Env (list string) :=
  ks <- lift (keys (master_urls self)) ;;
  filter_ (is_pending self) ks.

Definition process_urls (self : ScrapeMaster) : py Env ScrapeMaster :=
  self <- (if negb (truthy (master_urls self)) then
             for_ (topics self) collect_topic self
           else ret self) ;;
  pending <- pending_urls self ;;
  for_ pending process_url self.

(** [Path(p).exists()]: a file of the directory exists; about any other
    path the operating system decides, and its error is raised. *)
Definition path_exists (p : string) : py Env bool :=
  λ env, match fs env !! p with
         | Some _ => (inr true, env)
         | None => (os_exists p (world env), env)
         end.

(** [open(path, 'r')]: a path that exists and is no file is a directory. *)
Definition open_read (p : string) : py Env file_body :=
  λ env, match fs env !! p with
         | Some body => (inr body, env)
         | None =>
             match os_exists p (world env) with
             | inr true => (inl (IsADirectoryError ("Is a directory: " +:+ p)), env)
             | inr false =>
                 (inl (FileNotFoundError ("No such file or directory: " +:+ p)), env)
             | inl exn => (inl exn, env)
             end
         end.

(** The shape test shared by the JSON and the YAML branch. *)
Definition topics_of_data (format : string) (data : pyobj) : pyexc + pyobj :=
  match data with
  | PList _ => inr data
  | PDict d =>
      match Dict.get "topics" d with
      | Some ts => inr ts
      | None => inl (ValueError (format +:+ " file must contain a list or a dict with 'topics' key"))
      end
  | _ => inl (ValueError (format +:+ " file must contain a list or a dict with 'topics' key"))
  end.

Definition load_topics_from_file (file_path : string) : py Env pyobj :=
  ex <- path_exists file_path ;;
  if negb ex then raise (FileNotFoundError ("File not found: " +:+ file_path))
  else
    let suffix := path_suffix file_path in
    if String.eqb suffix ".json" then
      f <- open_read file_path ;;
      data <- lift (json_load f) ;;
      lift (topics_of_data "JSON" data)
    else if String.eqb suffix ".yaml" || String.eqb suffix ".yml" then
      f <- open_read file_path ;;
      data <- lift (yaml_safe_load f) ;;
      lift (topics_of_data "YAML" data)
    else if String.eqb suffix ".txt" then
      f <- open_read file_path ;;
      content <- lift (read f) ;;
      ret (PList (PStr <$> stripped_lines content))
    else if String.eqb suffix ".md" then
      f <- open_read file_path ;;
      content <- lift (read f) ;;
      match re_findall_bullets content with
      | [] => ret (PList (PStr <$> stripped_lines content))
      | topics => ret (PList (PStr <$> map strip topics))
      end
    else raise (ValueError ("Unsupported file format: " +:+ suffix)).

Definition main (args : Args) : py Env unit :=
  ex <- path_exists (args_topics args) ;;
  topics_str <- (if ex then
                   topics <- load_topics_from_file (args_topics args) ;;
                   lift (join "," topics)
                 else ret (args_topics args)) ;;
  scraper <- __init__ (args_websites args) topics_str ;;
  process_urls scraper ;;;
  ret tt.

End Program.

(** * Vocabulary of the properties

    What a call, a pass of a loop and a run leave behind, written as
    functions of the collaborators' answers. *)

Definition extraction (url : string) (markup : html) : pyobj :=
  PDict [("url", PStr url);
         ("title", title_of (BeautifulSoup markup));
         ("content",
           PStr (String.concat " "
                   (map get_text (find_all content_tags (BeautifulSoup markup)))))].

(** What a call makes of the collaborator's answer: the reason of a
    failure, or the markup of a page fetched with status 200. *)
Definition classify (r : pyexc + response) : string + html :=
  match r with
  | inl exn => inl (exc_str exn)
  | inr resp =>
      if status resp =? 200 then
        match text resp with
        | inl exn => inl (exc_str exn)
        | inr markup => inr markup
        end
      else inl ("HTTP " +:+ pretty (status resp))
  end.

(** The object after one pass of the loop body on [url]. *)
Definition settle (url : string) (r : pyexc + response) (c e : list (string * pyobj))
    (self : ScrapeMaster) : ScrapeMaster :=
  match classify r with
  | inl reason => set_error_urls self (PDict (Dict.set url (PStr reason) e))
  | inr markup => set_completed_urls self (PDict (Dict.set url (extraction url markup) c))
  end.

(** The records one pass appends to the dataset. *)
Definition appended (url : string) (r : pyexc + response) : list pyobj :=
  match classify r with
  | inl _ => []
  | inr markup => [extraction url markup]
  end.

(** The completed and the failed items after one answer, and after all. *)
Definition settle_dicts (ce : list (string * pyobj) * list (string * pyobj))
    (ur : string * (pyexc + response)) :=
  match classify ur.2 with
  | inl reason => (ce.1, Dict.set ur.1 (PStr reason) ce.2)
  | inr markup => (Dict.set ur.1 (extraction ur.1 markup) ce.1, ce.2)
  end.

Definition settled (rs : list (string * (pyexc + response)))
    (ce : list (string * pyobj) * list (string * pyobj)) :=
  foldl settle_dicts ce rs.

Definition records (rs : list (string * (pyexc + response))) : list pyobj :=
  flat_map (λ ur, appended ur.1 ur.2) rs.

(** The pending URLs of three dicts. *)
Definition pending_of (m c e : list (string * pyobj)) : list string :=
  List.filter (λ u, negb (Dict.mem u c) && negb (Dict.mem u e)) (Dict.keys m).

(** The discovered items after one topic's URLs are written into them. *)
Definition merged (topic : string) (urls : list string) (m : list (string * pyobj)) :=
  foldl (λ m u, Dict.set u (PStr topic) m) m urls.

Definition searches (ts : list string) (n : Z) : list event :=
  map (λ t, EvSearch t n) ts.

(** What [_load_or_create_json] finds at [path]: a dict. *)
Definition loads (f : gmap string file_body) (path : string)
    (d : list (string * pyobj)) : Prop :=
  match f !! path with
  | None => d = []
  | Some body => body = JsonDoc (PDict d)
  end.

(** The three store files hold dicts (or are missing), the discovered
    one with distinct keys, the completed and failed ones disjoint. *)
Definition disk_ok (f : gmap string file_body) : Prop :=
  ∃ m c e, loads f master_file m ∧ loads f completed_file c ∧
           loads f errors_file e ∧ Dict.wf m ∧ Dict.disjoint c e.

(** [o.get(k)] on a dict. *)
Definition item (o : pyobj) (k : string) : option pyobj :=
  match o with
  | PDict d => Dict.get k d
  | _ => None
  end.

(** The number of results the searches of a trace asked for. *)
Definition requested (evs : list event) : Z :=
  foldr (λ ev n, match ev with EvSearch _ k => k + n | EvScrape _ => n end) 0 evs.

(** The extensions [load_topics_from_file] reads. *)
Definition supported_suffixes : list string := [".json"; ".yaml"; ".yml"; ".txt"; ".md"].

Section Vocabulary.

Context {World : Type}.
Variable session_get : string → World → (pyexc + response) * World.
Variable search : string → Z → World → (pyexc + list string) * World.

Local Abbreviation Env := (Env World).

(** The environment a call leaves: the world after the request, one
    more event, files and dataset untouched. *)
Definition after_scrape (url : string) (w : World) (env : Env) : Env :=
  mkEnv w (fs env) (dataset env) (trace env ++ [EvScrape url]).

Definition after_url (url : string) (w : World) (self' : ScrapeMaster)
    (out : list pyobj) (env : Env) : Env :=
  mkEnv w
    (<[errors_file := JsonDoc (error_urls self')]>
       (<[completed_file := JsonDoc (completed_urls self')]> (fs env)))
    (dataset env ++ out)
    (trace env ++ [EvScrape url]).

Definition after_topic (topic : string) (self' : ScrapeMaster) (w : World)
    (env : Env) : Env :=
  mkEnv w (<[master_file := JsonDoc (master_urls self')]> (fs env))
    (dataset env) (trace env ++ [EvSearch topic (urls_per_topic self')]).

(** The collaborator's answers during the loop, in order, and the
    world they leave. *)
Fixpoint fetches (ps : list string) (w : World)
  : list (string * (pyexc + response)) * World :=
  match ps with
  | [] => ([], w)
  | u :: ps' =>
      let (r, w1) := session_get u w in
      let (rs, w2) := fetches ps' w1 in
      ((u, r) :: rs, w2)
  end.

(** What [_search_google_sync] returns, and the world it leaves. *)
Definition found (topic : string) (n : Z) (w : World) : list string * World :=
  match search topic n w with
  | (inr urls, w') => (urls, w')
  | (inl _, w') => ([], w')
  end.

(** The discovered items after the discovery loop, and the world it leaves. *)
Fixpoint discovered (ts : list string) (n : Z) (m : list (string * pyobj)) (w : World)
  : list (string * pyobj) * World :=
  match ts with
  | [] => (m, w)
  | t :: ts' =>
      let (urls, w1) := found t n w in
      discovered ts' n (merged t urls m) w1
  end.

(** The states of the store a process can be in: after loading, after a
    pass of either loop, after a later process loads what was saved. *)
(** The pending list a run on three dicts computes, and the world when
    the loop over it starts. *)
Definition loop_start (self : ScrapeMaster) (m c e : list (string * pyobj)) (w : World)
  : list string * World :=
  let mw := if truthy (PDict m) then (m, w)
            else discovered (topics self) (urls_per_topic self) m w in
  (pending_of mw.1 c e, mw.2).

Inductive reachable : ScrapeMaster → Env → Prop :=
| reach_init n ts env self env' :
    disk_ok (fs env) →
    __init__ n ts env = (inr self, env') →
    reachable self env'
| reach_topic topic self env self' env' :
    reachable self env →
    collect_topic search topic self env = (inr self', env') →
    reachable self' env'
| reach_url url self env self' env' :
    reachable self env →
    is_pending self url env = (inr true, env) →
    process_url session_get url self env = (inr self', env') →
    reachable self' env'
| reach_restart n ts w self env self' env' :
    reachable self env →
    __init__ n ts (mkEnv w (fs env) (dataset env) (trace env)) = (inr self', env') →
    reachable self' env'.

Definition store_ok (self : ScrapeMaster) (env : Env) : Prop :=
  ∃ m c e,
    master_urls self = PDict m ∧ completed_urls self = PDict c ∧
    error_urls self = PDict e ∧ Dict.wf m ∧ Dict.disjoint c e ∧
    loads (fs env) master_file m ∧ loads (fs env) completed_file c ∧
    loads (fs env) errors_file e.

End Vocabulary.

(** * A scenario

    A small network, search provider and working directory, used to run
    the program on concrete inputs. *)

Module Scenario.

Definition page : html :=
  [Tag "html"
     [Tag "head" [Tag "title" [NavigableString "Cats"]];
      Tag "body"
        [Tag "h1" [NavigableString "About cats"];
         Tag "div" [Tag "p" [NavigableString "They purr."]];
         Tag "p" [NavigableString "They "; Tag "b" [NavigableString "nap"]; NavigableString "."]]]].

(** A page with a script and a comment in a paragraph and a style sheet
    in a heading:
    [<p>a<script>b</script><!--n--></p><h2>c<style>d</style></h2>]. *)
Definition scripted_page : html :=
  [Tag "p" [NavigableString "a"; Tag "script" [NavigableString "b"];
            SpecialString Comment "n"];
   Tag "h2" [NavigableString "c"; Tag "style" [NavigableString "d"]]].

(** A page whose title element is empty: [<title></title>]. *)
Definition untitled_page : html :=
  [Tag "html"
     [Tag "head" [Tag "title" []];
      Tag "body" [Tag "p" [NavigableString "x"]]]].

(** The network: one page that loads, one with an empty title, one with
    a script and a style sheet, one that is
    gone, one answered 204, one that times out ([str] of
    [asyncio.TimeoutError()] is empty); no other host resolves. *)
Definition net_get (url : string) (w : unit) : (pyexc + response) * unit :=
  (if String.eqb url "https://cats.example" then inr (Response 200 (inr page))
   else if String.eqb url "https://untitled.example" then inr (Response 200 (inr untitled_page))
   else if String.eqb url "https://scripted.example" then inr (Response 200 (inr scripted_page))
   else if String.eqb url "https://gone.example" then inr (Response 404 (inr []))
   else if String.eqb url "https://empty.example" then inr (Response 204 (inr []))
   else if String.eqb url "https://slow.example" then inl (PyExc "TimeoutError" "")
   else inl (PyExc "ClientConnectorError" ("Cannot connect to host " +:+ url)), w).

Definition net_search (topic : string) (n : Z) (w : unit)
  : (pyexc + list string) * unit :=
  (if String.eqb topic "cats" then inr ["https://cats.example"; "https://slow.example"]
   else if String.eqb topic "dogs" then inr ["https://gone.example"]
   else inl (PyExc "HTTPError" "429 Too Many Requests"), w).

(** An empty working directory. *)
Definition fresh : Env unit := mkEnv tt ∅ [] [].

(** A directory left by an earlier run: three URLs discovered, one of them
    completed, one failed. *)
Definition discovered_items : list (string * pyobj) :=
  [("https://cats.example", PStr "cats");
   ("https://slow.example", PStr "cats");
   ("https://gone.example", PStr "dogs")].

Definition completed_items : list (string * pyobj) :=
  [("https://cats.example",
    PDict [("url", PStr "https://cats.example"); ("title", PStr "Cats");
           ("content", PStr "About cats They purr. They nap.")])].

Definition failed_items : list (string * pyobj) :=
  [("https://gone.example", PStr "HTTP 404")].

Definition resumed : Env unit :=
  mkEnv tt
    (<[master_file := JsonDoc (PDict discovered_items)]>
       (<[completed_file := JsonDoc (PDict completed_items)]>
          (<[errors_file := JsonDoc (PDict failed_items)]> ∅)))
    [] [].

(** The object a process holds after loading [resumed]. *)
Definition loaded : ScrapeMaster :=
  mkScrapeMaster 10 ["cats"; "dogs"; "birds"] 3
    (PDict discovered_items) (PDict completed_items) (PDict failed_items).

(** The object of a first run, nothing loaded. *)
Definition blank : ScrapeMaster :=
  mkScrapeMaster 10 ["cats"; "dogs"; "birds"] 3 (PDict []) (PDict []) (PDict []).

(** The topic-file readers: a YAML reader that accepts nothing, the raw
    text of a file, a bullet pattern that matches nothing. *)
Definition no_yaml (f : file_body) : pyexc + pyobj :=
  inl (PyExc "YAMLError" "could not parse").

Definition raw_text (f : file_body) : pyexc + string :=
  match f with
  | PlainText s => inr s
  | JsonDoc _ => inr ""
  | Undecodable _ => inl (UnicodeDecodeError "'utf-8' codec can't decode byte")
  end.

Definition no_bullets (content : string) : list string := [].

(** The operating system of the scenario, for a working directory
    without subdirectories: beyond the files, the directory itself and
    its parent exist, and a name of more than 255 bytes is refused. *)
Definition plain_dir (p : string) (w : unit) : pyexc + bool :=
  match List.filter (λ c, negb (String.eqb c "") && negb (String.eqb c "."))
          (split_on "/" p) with
  | [] => inr true
  | [name] =>
      if String.eqb name ".." then inr true
      else if (255 <? String.length name)%nat then
        inl (OSError ("[Errno 36] File name too long: '" +:+ p +:+ "'"))
      else inr false
  | _ => inr false
  end.

(** A literal topic of 260 characters. *)
Definition long_topic : string :=
  String.concat "" (replicate 26 "catsanddog").

(** A directory holding a topic file with an extension that is not read. *)
Definition with_csv : Env unit :=
  mkEnv tt (<["topics.csv" := PlainText "cats,dogs"]> ∅) [] [].

(** A directory whose failed-set file holds a JSON list. *)
Definition with_list : Env unit :=
  mkEnv tt (<[errors_file := JsonDoc (PList [])]> ∅) [] [].

End Scenario.



(** The URLs among the answers whose fetch gave a page, in order. *)
Definition succeeded (rs : list (string * (pyexc + response))) : list string :=
  flat_map (λ ur, match classify ur.2 with inr _ => [ur.1] | inl _ => [] end) rs.

(** The ['url'] entries of a list of records. *)
Definition record_urls (out : list pyobj) : list (option pyobj) :=
  (λ o, item o "url") <$> out.




(** More of the scenario: corrupted stores and topic files. *)

Module Corrupted.



(** An object whose discovered-set is a JSON list. *)
Definition listed : ScrapeMaster :=
  mkScrapeMaster 10 ["cats"] 10 (PList [PStr "https://cats.example"]) (PDict []) (PDict []).

(** An object whose failed-set is a JSON list. *)
Definition unlisted : ScrapeMaster :=
  mkScrapeMaster 10 ["cats"] 10 (PDict []) (PDict []) (PList []).

(** A directory whose discovered-set file holds the three URLs of the
    scenario and whose failed-set file holds a JSON list, and the object
    a process loads from it. *)
Definition with_pending : Env unit :=
  mkEnv tt
    (<[master_file := JsonDoc (PDict Scenario.discovered_items)]>
       (<[errors_file := JsonDoc (PList [])]> ∅))
    [] [].

Definition pending_unlisted : ScrapeMaster :=
  mkScrapeMaster 10 ["cats"] 10 (PDict Scenario.discovered_items) (PDict []) (PList []).

End Corrupted.

Module TopicFiles.

(** A directory with three topic files: a JSON list with an item that
    holds a comma, a JSON dict with a topics entry, and a text file with
    blank lines and padded lines. *)
Definition with_topics : Env unit :=
  mkEnv tt
    (<["topics.json" := JsonDoc (PList [PStr "cats"; PStr "dogs, birds"])]>
       (<["named.json" := JsonDoc (PDict [("topics", PList [PStr "cats"])])]>
          (<["notes.txt" := PlainText "cats

  dogs  
"]> ∅)))
    [] [].




End TopicFiles.

(** Closing a goal by running the model. *)
Ltac by_compute := vm_compute; reflexivity.
Ltac decide_it := refine (bool_decide_unpack _ _); vm_compute; exact I.

(** * Properties *)

(** ** Dict items *)

Module DictFacts.
Import Dict.

Lemma elem_of_keys_set {V} (k k' : string) (v : V) d :
  k' ∈ keys (set k v d) ↔ k' = k ∨ k' ∈ keys d.
Proof.
  unfold keys. induction d as [|[k0 v0] d IH]; simpl.
  - rewrite list_elem_of_singleton. set_solver.
  - destruct (String.eqb_spec k0 k) as [->|Hne]; simpl.
    + set_solver.
    + rewrite !elem_of_cons, IH. tauto.
Qed.

Lemma keys_set_mem {V} (k : string) (v : V) d :
  k ∈ keys d → keys (set k v d) = keys d.
Proof.
  unfold keys. induction d as [|[k0 v0] d IH]; simpl; intros Hin.
  - inversion Hin.
  - destruct (String.eqb_spec k0 k) as [->|Hne]; simpl; [done|].
    f_equal. apply IH. set_solver.
Qed.

Lemma keys_set_fresh {V} (k : string) (v : V) d :
  k ∉ keys d → keys (set k v d) = (keys d ++ [k])%list.
Proof.
  unfold keys. induction d as [|[k0 v0] d IH]; simpl; intros Hin; [done|].
  destruct (String.eqb_spec k0 k) as [->|Hne]; simpl.
  - set_solver.
  - f_equal. apply IH. set_solver.
Qed.

Lemma wf_set {V} (k : string) (v : V) d : wf d → wf (set k v d).
Proof.
  unfold wf. intros Hwf. destruct (decide (k ∈ keys d)) as [Hin|Hout].
  - by rewrite keys_set_mem.
  - rewrite keys_set_fresh by done. apply NoDup_app. repeat split; [done| |].
    + intros x Hx ->%list_elem_of_singleton. done.
    + apply NoDup_singleton.
Qed.

Lemma get_set_eq {V} (k : string) (v : V) d : get k (set k v d) = Some v.
Proof.
  induction d as [|[k0 v0] d IH]; simpl.
  - by rewrite String.eqb_refl.
  - destruct (String.eqb_spec k0 k) as [->|Hne]; simpl.
    + by rewrite String.eqb_refl.
    + by destruct (String.eqb_spec k0 k).
Qed.

Lemma get_set_ne {V} (k k' : string) (v : V) d :
  k ≠ k' → get k' (set k v d) = get k' d.
Proof.
  intros Hne. induction d as [|[k0 v0] d IH]; simpl.
  - by destruct (String.eqb_spec k k').
  - destruct (String.eqb_spec k0 k) as [->|Hne0]; simpl.
    + by destruct (String.eqb_spec k k').
    + by rewrite IH.
Qed.

Lemma get_None {V} (k : string) (d : list (string * V)) :
  get k d = None ↔ k ∉ keys d.
Proof.
  unfold keys. induction d as [|[k0 v0] d IH]; simpl.
  - set_solver.
  - destruct (String.eqb_spec k0 k) as [->|Hne].
    + split; [done|]. set_solver.
    + rewrite IH. set_solver.
Qed.

Lemma mem_true {V} (k : string) (d : list (string * V)) :
  mem k d = true ↔ k ∈ keys d.
Proof. unfold mem. by rewrite bool_decide_eq_true. Qed.

Lemma mem_false {V} (k : string) (d : list (string * V)) :
  mem k d = false ↔ k ∉ keys d.
Proof. unfold mem. by rewrite bool_decide_eq_false. Qed.

End DictFacts.

(** ** What the answers settle *)

Lemma split_on_length sep s : (1 ≤ length (split_on sep s))%nat.
Proof.
  induction s as [|ch s IH]; simpl; [lia|].
  destruct (Ascii.eqb ch sep); simpl; [lia|].
  destruct (split_on sep s); simpl in *; lia.
Qed.

Lemma settled_cons ur rs ce :
  settled (ur :: rs) ce = settled rs (settle_dicts ce ur).
Proof. reflexivity. Qed.

Lemma settle_dicts_keys ce ur k :
  (k ∈ Dict.keys (settle_dicts ce ur).1 ↔
     k ∈ Dict.keys ce.1 ∨ (k = ur.1 ∧ ∃ markup, classify ur.2 = inr markup)) ∧
  (k ∈ Dict.keys (settle_dicts ce ur).2 ↔
     k ∈ Dict.keys ce.2 ∨ (k = ur.1 ∧ ∃ reason, classify ur.2 = inl reason)).
Proof.
  unfold settle_dicts. destruct (classify ur.2) as [reason|markup]; simpl;
    rewrite ?DictFacts.elem_of_keys_set; naive_solver.
Qed.

Lemma settled_keys_completed rs : ∀ ce k,
  k ∈ Dict.keys (settled rs ce).1 ↔
  k ∈ Dict.keys ce.1 ∨ ∃ r markup, (k, r) ∈ rs ∧ classify r = inr markup.
Proof.
  induction rs as [|[u r] rs IH]; intros ce k.
  - simpl. split; [by left|]. intros [?|(? & ? & H & _)]; [done|]. inversion H.
  - rewrite settled_cons, IH, (proj1 (settle_dicts_keys ce (u, r) k)). simpl.
    split.
    + intros [[?|[-> [mk Hmk]]]|(r' & mk & Hin & Hmk)]; [by left| |].
      * right. exists r, mk. split; [left|done].
      * right. exists r', mk. split; [by right|done].
    + intros [?|(r' & mk & [Heq|Hin]%elem_of_cons & Hmk)]; [by left; left| |].
      * injection Heq as -> ->. left; right. eauto.
      * right. eauto.
Qed.

Lemma settled_keys_failed rs : ∀ ce k,
  k ∈ Dict.keys (settled rs ce).2 ↔
  k ∈ Dict.keys ce.2 ∨ ∃ r reason, (k, r) ∈ rs ∧ classify r = inl reason.
Proof.
  induction rs as [|[u r] rs IH]; intros ce k.
  - simpl. split; [by left|]. intros [?|(? & ? & H & _)]; [done|]. inversion H.
  - rewrite settled_cons, IH, (proj2 (settle_dicts_keys ce (u, r) k)). simpl.
    split.
    + intros [[?|[-> [mk Hmk]]]|(r' & mk & Hin & Hmk)]; [by left| |].
      * right. exists r, mk. split; [left|done].
      * right. exists r', mk. split; [by right|done].
    + intros [?|(r' & mk & [Heq|Hin]%elem_of_cons & Hmk)]; [by left; left| |].
      * injection Heq as -> ->. left; right. eauto.
      * right. eauto.
Qed.

Lemma NoDup_fst_functional {A B} (l : list (A * B)) k a b :
  NoDup l.*1 → (k, a) ∈ l → (k, b) ∈ l → a = b.
Proof.
  induction l as [|[k0 a0] l IH]; simpl; intros Hnd Ha Hb.
  - inversion Ha.
  - apply NoDup_cons in Hnd as [Hk0 Hnd].
    apply elem_of_cons in Ha as [Ha|Ha]; apply elem_of_cons in Hb as [Hb|Hb].
    + congruence.
    + injection Ha as -> ->. exfalso. apply Hk0.
      apply list_elem_of_fmap. by exists (k0, b).
    + injection Hb as -> ->. exfalso. apply Hk0.
      apply list_elem_of_fmap. by exists (k0, a).
    + by apply IH.
Qed.

(** Exclusivity is kept when every URL is answered once and was in
    neither dict. *)
Lemma settled_disjoint rs c e :
  NoDup rs.*1 →
  (∀ u, u ∈ rs.*1 → u ∉ Dict.keys c ∧ u ∉ Dict.keys e) →
  Dict.disjoint c e →
  Dict.disjoint (settled rs (c, e)).1 (settled rs (c, e)).2.
Proof.
  intros Hnd Hfresh Hdis k Hc He.
  apply settled_keys_completed in Hc. apply settled_keys_failed in He.
  simpl in *.
  assert (Hin : ∀ r, (k, r) ∈ rs → k ∈ rs.*1).
  { intros r Hr. apply list_elem_of_fmap. by exists (k, r). }
  destruct Hc as [Hc|(r1 & mk & Hr1 & Hmk)]; destruct He as [He|(r2 & rn & Hr2 & Hrn)].
  - by eapply Hdis.
  - by destruct (Hfresh k (Hin _ Hr2)).
  - by destruct (Hfresh k (Hin _ Hr1)).
  - assert (r1 = r2) by by eapply NoDup_fst_functional. congruence.
Qed.

Lemma settled_get_failed_other rs : ∀ ce u,
  u ∉ rs.*1 → Dict.get u (settled rs ce).2 = Dict.get u ce.2.
Proof.
  induction rs as [|[u0 r0] rs IH]; intros ce u Hu; [done|].
  rewrite settled_cons, IH by set_solver.
  unfold settle_dicts. simpl. destruct (classify r0); simpl; [|done].
  apply DictFacts.get_set_ne. set_solver.
Qed.

(** A failed URL answered once holds the reason of its failure. *)
Lemma settled_get_failed rs : ∀ ce u r reason,
  NoDup rs.*1 → (u, r) ∈ rs → classify r = inl reason →
  Dict.get u (settled rs ce).2 = Some (PStr reason).
Proof.
  induction rs as [|[u0 r0] rs IH]; intros ce u r reason Hnd Hin Hr.
  - inversion Hin.
  - simpl in Hnd. apply NoDup_cons in Hnd as [Hu0 Hnd]. rewrite settled_cons.
    apply elem_of_cons in Hin as [Heq|Hin].
    + injection Heq as -> ->. rewrite settled_get_failed_other by done.
      unfold settle_dicts. simpl. rewrite Hr. simpl. apply DictFacts.get_set_eq.
    + by eapply IH.
Qed.

Lemma records_url rs o :
  o ∈ records rs → ∃ u r markup,
    (u, r) ∈ rs ∧ classify r = inr markup ∧ o = extraction u markup.
Proof.
  unfold records. intros Ho. apply list_elem_of_In, in_flat_map in Ho.
  destruct Ho as ([u r] & Hur%list_elem_of_In & Ho). simpl in Ho.
  unfold appended in Ho. destruct (classify r) as [|markup] eqn:Hr; simpl in Ho.
  - done.
  - destruct Ho as [<-|[]]. by exists u, r, markup.
Qed.

Lemma settle_settle_dicts url r c e self :
  completed_urls self = PDict c →
  error_urls self = PDict e →
  completed_urls (settle url r c e self) = PDict (settle_dicts (c, e) (url, r)).1 ∧
  error_urls (settle url r c e self) = PDict (settle_dicts (c, e) (url, r)).2 ∧
  master_urls (settle url r c e self) = master_urls self ∧
  topics (settle url r c e self) = topics self ∧
  urls_per_topic (settle url r c e self) = urls_per_topic self ∧
  num_websites (settle url r c e self) = num_websites self.
Proof.
  intros Hc He. unfold settle, settle_dicts. simpl.
  destruct (classify r); simpl; by rewrite ?Hc, ?He.
Qed.

Lemma pending_of_spec m c e u :
  u ∈ pending_of m c e ↔
  u ∈ Dict.keys m ∧ u ∉ Dict.keys c ∧ u ∉ Dict.keys e.
Proof.
  unfold pending_of. rewrite list_elem_of_In, filter_In, <- list_elem_of_In.
  rewrite andb_true_iff, !negb_true_iff, !DictFacts.mem_false. tauto.
Qed.

Lemma pending_of_NoDup m c e : Dict.wf m → NoDup (pending_of m c e).
Proof.
  unfold Dict.wf, pending_of. intros Hwf. apply NoDup_ListNoDup.
  apply List.NoDup_filter. by apply NoDup_ListNoDup.
Qed.

Lemma merged_wf topic urls : ∀ m, Dict.wf m → Dict.wf (merged topic urls m).
Proof.
  induction urls as [|u urls IH]; intros m Hwf; [done|].
  apply IH. by apply DictFacts.wf_set.
Qed.

Lemma merged_keys topic urls : ∀ m k,
  k ∈ Dict.keys (merged topic urls m) ↔ k ∈ Dict.keys m ∨ k ∈ urls.
Proof.
  induction urls as [|u urls IH]; intros m k; simpl.
  - set_solver.
  - unfold merged in *. simpl. rewrite IH, DictFacts.elem_of_keys_set. set_solver.
Qed.

Lemma set_master_urls_same self m :
  master_urls self = PDict m → set_master_urls self (PDict m) = self.
Proof. destruct self; simpl. by intros ->. Qed.

Lemma loads_insert f path d : loads (<[path := JsonDoc (PDict d)]> f) path d.
Proof. unfold loads. by rewrite lookup_insert_eq. Qed.

Lemma loads_insert_ne f path path' v d :
  path' ≠ path → loads f path d → loads (<[path' := v]> f) path d.
Proof. unfold loads. intros Hne. by rewrite lookup_insert_ne. Qed.

(** ** Splitting a joined topic list *)

Lemma split_on_no_sep sep s :
  sep ∉ list_ascii_of_string s → split_on sep s = [s].
Proof.
  induction s as [|ch s IH]; simpl; intros Hs; [done|].
  destruct (Ascii.eqb_spec ch sep) as [->|_]; [set_solver|].
  rewrite IH by set_solver. done.
Qed.

Lemma split_on_app sep s rest :
  sep ∉ list_ascii_of_string s →
  split_on sep (s ++ String sep rest)%string = s :: split_on sep rest.
Proof.
  induction s as [|ch s IH]; simpl; intros Hs.
  - by rewrite Ascii.eqb_refl.
  - destruct (Ascii.eqb_spec ch sep) as [->|_]; [set_solver|].
    rewrite IH by set_solver. done.
Qed.

(** [",".join(l).split(",")] gives [l] back when no topic holds a comma. *)
Lemma split_on_concat (l : list string) :
  l ≠ [] →
  Forall (λ t, ","%char ∉ list_ascii_of_string t) l →
  split_on "," (String.concat "," l) = l.
Proof.
  intros Hne Hl. induction Hl as [|t l Ht Hl IH]; [done|].
  destruct l as [|t' l'].
  - by apply split_on_no_sep.
  - change (String.concat "," (t :: t' :: l')) with
      (t ++ String "," (String.concat "," (t' :: l')))%string.
    rewrite split_on_app by done. f_equal. by apply IH.
Qed.

Lemma requested_app evs1 evs2 :
  requested (evs1 ++ evs2) = requested evs1 + requested evs2.
Proof.
  induction evs1 as [|[t k|u] evs1 IH]; simpl; [done|fold (requested (evs1 ++ evs2)) (requested evs1); lia|done].
Qed.

Lemma requested_searches ts n : requested (searches ts n) = Z.of_nat (length ts) * n.
Proof.
  induction ts as [|t ts IH]; [done|].
  change (requested (searches (t :: ts) n)) with (n + requested (searches ts n)).
  rewrite IH. simpl length. lia.
Qed.

Lemma requested_scrapes ps : requested (map EvScrape ps) = 0.
Proof. by induction ps. Qed.

(** ** Calls, loops and runs *)

Section RunFacts.

Context {World : Type}.
Variable session_get : string → World → (pyexc + response) * World.
Variable search : string → Z → World → (pyexc + list string) * World.

Local Abbreviation Env := (Env World).
Local Abbreviation scrape := (scrape_website session_get).
Local Abbreviation fetches := (fetches session_get).
Local Abbreviation found := (found search).
Local Abbreviation discovered := (discovered search).
Local Abbreviation reachable := (reachable session_get search).
Local Abbreviation loop_start := (loop_start search).

Lemma scrape_get_raises self url env e exn w :
  error_urls self = PDict e →
  session_get url (world env) = (inl exn, w) →
  scrape self url env =
    (inr (set_error_urls self (PDict (Dict.set url (PStr (exc_str exn)) e)), PNone),
     after_scrape url w env).
Proof.
  intros He Hget. unfold scrape_website, bind, try_except, tell, call. simpl.
  rewrite Hget. simpl. by rewrite He.
Qed.

Lemma scrape_status_not_200 self url env e resp w :
  error_urls self = PDict e →
  session_get url (world env) = (inr resp, w) →
  status resp ≠ 200 →
  scrape self url env =
    (inr (set_error_urls self
            (PDict (Dict.set url (PStr ("HTTP " +:+ pretty (status resp))) e)), PNone),
     after_scrape url w env).
Proof.
  intros He Hget Hst. unfold scrape_website, bind, try_except, tell, call. simpl.
  rewrite Hget. simpl. destruct (Z.eqb_spec (status resp) 200) as [|_]; [done|].
  simpl. by rewrite He.
Qed.

Lemma scrape_text_raises self url env e resp exn w :
  error_urls self = PDict e →
  session_get url (world env) = (inr resp, w) →
  status resp = 200 →
  text resp = inl exn →
  scrape self url env =
    (inr (set_error_urls self (PDict (Dict.set url (PStr (exc_str exn)) e)), PNone),
     after_scrape url w env).
Proof.
  intros He Hget Hst Htx. unfold scrape_website, bind, try_except, tell, call, lift.
  simpl. rewrite Hget. simpl. rewrite Hst, Htx. simpl. by rewrite He.
Qed.

Lemma scrape_success self url env resp markup w :
  session_get url (world env) = (inr resp, w) →
  status resp = 200 →
  text resp = inr markup →
  scrape self url env = (inr (self, extraction url markup), after_scrape url w env).
Proof.
  intros Hget Hst Htx. unfold scrape_website, bind, try_except, tell, call, lift.
  simpl. rewrite Hget. simpl. by rewrite Hst, Htx.
Qed.

Lemma scrape_classify self url env e r w :
  error_urls self = PDict e →
  session_get url (world env) = (r, w) →
  scrape self url env =
    (inr match classify r with
         | inl reason =>
             (set_error_urls self (PDict (Dict.set url (PStr reason) e)), PNone)
         | inr markup => (self, extraction url markup)
         end,
     after_scrape url w env).
Proof.
  intros He Hget. destruct r as [exn|resp]; simpl.
  - by apply scrape_get_raises.
  - destruct (Z.eqb_spec (status resp) 200) as [Hst|Hst].
    + destruct (text resp) as [exn|markup] eqn:Htx.
      * by eapply scrape_text_raises.
      * by eapply scrape_success.
    + by apply scrape_status_not_200.
Qed.

Lemma process_url_dicts self url env c e r w :
  completed_urls self = PDict c →
  error_urls self = PDict e →
  session_get url (world env) = (r, w) →
  process_url session_get url self env =
    (inr (settle url r c e self),
     after_url url w (settle url r c e self) (appended url r) env).
Proof.
  intros Hc He Hget. unfold process_url, bind at 1.
  rewrite (scrape_classify _ _ _ _ _ _ He Hget).
  unfold settle, appended, after_url. destruct (classify r) as [reason|markup].
  - destruct self; simpl in *. subst. unfold bind, json_dump, ret. simpl.
    by rewrite app_nil_r.
  - destruct self; simpl in *. subst. reflexivity.
Qed.

Lemma fetches_urls ps w : (fetches ps w).1.*1 = ps.
Proof.
  revert w. induction ps as [|u ps IH]; intros w; simpl; [done|].
  destruct (session_get u w) as [r w1]. specialize (IH w1).
  destruct (fetches ps w1) as [rs w2]. simpl in *. by f_equal.
Qed.

Lemma fetches_answers ps w u r :
  (u, r) ∈ (fetches ps w).1 → ∃ w0, r = (session_get u w0).1.
Proof.
  revert w. induction ps as [|u0 ps IH]; intros w; simpl.
  - intros H. inversion H.
  - destruct (session_get u0 w) as [r0 w1] eqn:Hget. specialize (IH w1).
    destruct (fetches ps w1) as [rs w2]. simpl in *.
    intros [Heq|Hin]%elem_of_cons; [|by apply IH].
    injection Heq as -> ->. exists w. by rewrite Hget.
Qed.

(** The loop returns, and leaves what the answers settle. *)
Lemma loop_dicts ps : ∀ self env c e,
  completed_urls self = PDict c →
  error_urls self = PDict e →
  ∃ self' env',
    for_ ps (process_url session_get) self env = (inr self', env') ∧
    completed_urls self' = PDict (settled (fetches ps (world env)).1 (c, e)).1 ∧
    error_urls self' = PDict (settled (fetches ps (world env)).1 (c, e)).2 ∧
    master_urls self' = master_urls self ∧
    topics self' = topics self ∧
    urls_per_topic self' = urls_per_topic self ∧
    num_websites self' = num_websites self ∧
    world env' = (fetches ps (world env)).2 ∧
    dataset env' = (dataset env ++ records (fetches ps (world env)).1)%list ∧
    trace env' = (trace env ++ map EvScrape ps)%list ∧
    (∀ p, p ≠ completed_file → p ≠ errors_file → fs env' !! p = fs env !! p) ∧
    (ps ≠ [] →
     fs env' !! completed_file = Some (JsonDoc (completed_urls self')) ∧
     fs env' !! errors_file = Some (JsonDoc (error_urls self'))) ∧
    (ps = [] → env' = env ∧ self' = self).
Proof.
  induction ps as [|u ps IH]; intros self env c e Hc He.
  - exists self, env. simpl. rewrite !app_nil_r. by repeat split.
  - destruct (session_get u (world env)) as [r w1] eqn:Hget.
    pose proof (process_url_dicts self u env c e r w1 Hc He Hget) as Hstep.
    destruct (settle_settle_dicts u r c e self Hc He)
      as (Hc1 & He1 & Hm1 & Ht1 & Hu1 & Hn1).
    set (self1 := settle u r c e self) in *.
    set (env1 := after_url u w1 self1 (appended u r) env) in *.
    destruct (IH self1 env1 _ _ Hc1 He1)
      as (self' & env' & Hrun & Hc' & He' & Hm' & Ht' & Hu' & Hn' & Hw' & Hd' & Htr' & Hfs' & Hne' & Hnil').
    rewrite <- (surjective_pairing (settle_dicts (c, e) (u, r))) in Hc', He'.
    exists self', env'.
    assert (Hf : fetches (u :: ps) (world env) =
                 ((u, r) :: (fetches ps w1).1, (fetches ps w1).2)).
    { simpl. rewrite Hget. by destruct (fetches ps w1). }
    rewrite Hf. simpl fst. simpl snd.
    change (world env1) with w1 in *.
    split. { simpl. unfold bind at 1. by rewrite Hstep. }
    split. { exact Hc'. } split. { exact He'. }
    split; [congruence|]. split; [congruence|]. split; [congruence|].
    split; [congruence|]. split. { exact Hw'. }
    split. { rewrite Hd'. subst env1. simpl. unfold records. simpl.
             by rewrite <- app_assoc. }
    split. { rewrite Htr'. subst env1. simpl. by rewrite <- app_assoc. }
    split. { intros p Hp1 Hp2. rewrite Hfs' by done. subst env1. simpl.
             by rewrite !lookup_insert_ne. }
    split; [|done]. intros _. destruct ps as [|u' ps'].
    + destruct Hnil' as [-> ->]; [done|]. subst env1. simpl.
      rewrite lookup_insert_ne by done. by rewrite !lookup_insert_eq.
    + by apply Hne'.
Qed.

Lemma filter_pure {A} (cond : A → py Env bool) (f : A → bool) xs (env : Env) :
  (∀ x, cond x env = (inr (f x), env)) →
  filter_ cond xs env = (inr (List.filter f xs), env).
Proof.
  intros Hcond. induction xs as [|x xs IH]; [done|].
  simpl. unfold bind. rewrite Hcond, IH. unfold ret. by destruct (f x).
Qed.

Lemma pending_urls_dicts self (env : Env) m c e :
  master_urls self = PDict m →
  completed_urls self = PDict c →
  error_urls self = PDict e →
  pending_urls self env = (inr (pending_of m c e), env).
Proof.
  intros Hm Hc He. unfold pending_urls, bind, lift. rewrite Hm. simpl.
  apply filter_pure. intros u. unfold is_pending, bind, lift, ret.
  rewrite Hc, He. simpl. by destruct (Dict.mem u c).
Qed.

Lemma write_urls_dict topic urls : ∀ self (env : Env) m,
  master_urls self = PDict m →
  for_ urls
    (λ url self,
       m <- lift (setitem (master_urls self) url (PStr topic)) ;;
       ret (set_master_urls self m))
    self env
  = (inr (set_master_urls self (PDict (merged topic urls m))), env).
Proof.
  induction urls as [|u urls IH]; intros self env m Hm.
  - simpl. unfold ret. destruct self; simpl in *. by subst.
  - simpl. unfold bind at 1. unfold lift, bind at 1. rewrite Hm. simpl.
    unfold ret at 1. erewrite IH by reflexivity. by destruct self.
Qed.

Lemma collect_topic_dict topic self (env : Env) m :
  master_urls self = PDict m →
  collect_topic search topic self env =
    let self' := set_master_urls self
                   (PDict (merged topic
                             (found topic (urls_per_topic self) (world env)).1 m)) in
    (inr self',
     after_topic topic self' (found topic (urls_per_topic self) (world env)).2 env).
Proof.
  intros Hm. unfold collect_topic, search_google, _search_google_sync, found.
  unfold bind at 1. unfold try_except, bind at 1, tell, call. simpl.
  destruct (search topic (urls_per_topic self) (world env)) as [[exn|urls] w].
  - simpl. destruct self; simpl in *; subst. reflexivity.
  - simpl. unfold bind at 1.
    erewrite write_urls_dict by eassumption. reflexivity.
Qed.

Lemma discovered_wf ts n : ∀ m w, Dict.wf m → Dict.wf (discovered ts n m w).1.
Proof.
  induction ts as [|t ts IH]; intros m w Hwf; [done|].
  simpl. destruct (found t n w) as [urls w1]. apply IH. by apply merged_wf.
Qed.

Lemma discovery_dicts ts : ∀ self (env : Env) m,
  master_urls self = PDict m →
  ∃ env',
    for_ ts (collect_topic search) self env =
      (inr (set_master_urls self
              (PDict (discovered ts (urls_per_topic self) m (world env)).1)), env') ∧
    world env' = (discovered ts (urls_per_topic self) m (world env)).2 ∧
    dataset env' = dataset env ∧
    trace env' = (trace env ++ searches ts (urls_per_topic self))%list ∧
    (∀ p, p ≠ master_file → fs env' !! p = fs env !! p) ∧
    (ts = [] → env' = env).
Proof.
  induction ts as [|t ts IH]; intros self env m Hm.
  - exists env. simpl. rewrite app_nil_r, (set_master_urls_same _ _ Hm).
    by repeat split.
  - simpl. unfold bind at 1. rewrite (collect_topic_dict t self env m Hm).
    cbv zeta.
    destruct (found t (urls_per_topic self) (world env)) as [urls w1] eqn:Hf.
    simpl fst. simpl snd.
    set (self1 := set_master_urls self (PDict (merged t urls m))).
    set (env1 := after_topic t self1 w1 env).
    destruct (IH self1 env1 (merged t urls m) eq_refl)
      as (env' & Hrun & Hw & Hd & Htr & Hfs & _).
    exists env'. rewrite Hrun. change (urls_per_topic self1) with (urls_per_topic self) in *.
    change (world env1) with w1 in *.
    split. { by destruct self. }
    split; [done|]. split; [done|].
    split. { rewrite Htr. subst env1. simpl. by rewrite <- app_assoc. }
    split; [|done]. intros p Hp. rewrite Hfs by done. subst env1. simpl.
    by rewrite lookup_insert_ne.
Qed.

(** A run on three dicts returns, and leaves what discovery and the
    answers settle. *)
Lemma process_urls_dicts self (env : Env) m c e :
  master_urls self = PDict m →
  completed_urls self = PDict c →
  error_urls self = PDict e →
  let mw := if truthy (PDict m) then (m, world env)
            else discovered (topics self) (urls_per_topic self) m (world env) in
  let evs := if truthy (PDict m) then []
             else searches (topics self) (urls_per_topic self) in
  let ps := pending_of mw.1 c e in
  let rs := (fetches ps mw.2).1 in
  ∃ self' env',
    process_urls session_get search self env = (inr self', env') ∧
    master_urls self' = PDict mw.1 ∧
    completed_urls self' = PDict (settled rs (c, e)).1 ∧
    error_urls self' = PDict (settled rs (c, e)).2 ∧
    dataset env' = (dataset env ++ records rs)%list ∧
    trace env' = (trace env ++ evs ++ map EvScrape ps)%list ∧
    (truthy (PDict m) = true → fs env' !! master_file = fs env !! master_file) ∧
    (ps ≠ [] →
     fs env' !! completed_file = Some (JsonDoc (completed_urls self')) ∧
     fs env' !! errors_file = Some (JsonDoc (error_urls self'))) ∧
    (ps = [] →
     fs env' !! completed_file = fs env !! completed_file ∧
     fs env' !! errors_file = fs env !! errors_file).
Proof.
  intros Hm Hc He mw evs ps rs. unfold process_urls.
  assert (∃ self1 env1,
    (if negb (truthy (master_urls self))
     then for_ (topics self) (collect_topic search) self
     else ret self) env = (inr self1, env1) ∧
    master_urls self1 = PDict mw.1 ∧ completed_urls self1 = PDict c ∧
    error_urls self1 = PDict e ∧ world env1 = mw.2 ∧
    dataset env1 = dataset env ∧ trace env1 = (trace env ++ evs)%list ∧
    (truthy (PDict m) = true → env1 = env) ∧
    (∀ p, p ≠ master_file → fs env1 !! p = fs env !! p))
    as (self1 & env1 & Hdisc & Hm1 & Hc1 & He1 & Hw1 & Hd1 & Htr1 & Hsame & Hfs1).
  { subst mw evs. rewrite Hm. destruct (truthy (PDict m)) eqn:Htruthy.
    - exists self, env. simpl. rewrite app_nil_r. by repeat split.
    - destruct (discovery_dicts (topics self) self env m Hm)
        as (env1 & Hrun & Hw & Hd & Htr & Hfs & _).
      eexists _, env1. split; [exact Hrun|]. destruct self; simpl in *.
      by repeat split. }
  unfold bind at 1. rewrite Hdisc. unfold bind at 1.
  rewrite (pending_urls_dicts self1 env1 _ c e Hm1 Hc1 He1).
  destruct (loop_dicts ps self1 env1 c e Hc1 He1)
    as (self' & env' & Hrun & Hc' & He' & Hm' & _ & _ & _ & _ & Hd' & Htr' & Hfs' & Hne & Hnil).
  exists self', env'. rewrite Hw1 in *. fold ps. fold rs in Hc', He', Hd'.
  split; [done|]. split; [congruence|]. split; [done|]. split; [done|].
  split; [congruence|].
  split. { rewrite Htr', Htr1. by rewrite <- app_assoc. }
  split. { intros Ht. rewrite Hfs' by done. by rewrite (Hsame Ht). }
  split; [done|]. intros Hps. destruct (Hnil Hps) as [-> ->].
  split; by apply Hfs1.
Qed.

Lemma load_dict (env : Env) path d :
  loads (fs env) path d →
  _load_or_create_json path env = (inr (PDict d), env).
Proof.
  unfold loads, _load_or_create_json. destruct (fs env !! path) as [body|].
  - by intros ->.
  - by intros ->.
Qed.

Lemma init_dicts n ts (env : Env) m c e :
  loads (fs env) master_file m →
  loads (fs env) completed_file c →
  loads (fs env) errors_file e →
  __init__ n ts env =
    (inr (mkScrapeMaster n (map strip (split_on "," ts))
            (n / Z.of_nat (length (map strip (split_on "," ts))))
            (PDict m) (PDict c) (PDict e)), env).
Proof.
  intros Hm Hc He. unfold __init__, bind at 1, lift, floordiv.
  pose proof (split_on_length "," ts) as Hlen.
  destruct (Z.eqb_spec (Z.of_nat (length (map strip (split_on "," ts)))) 0) as [H0|_].
  { rewrite length_map in H0. lia. }
  unfold bind. by rewrite (load_dict _ _ _ Hm), (load_dict _ _ _ Hc), (load_dict _ _ _ He).
Qed.

Lemma reachable_store_ok self env : reachable self env → store_ok self env.
Proof.
  induction 1 as [n ts env self env' (m & c & e & Hm & Hc & He & Hwf & Hdis) Hinit
                 |topic self env self' env' _ (m & c & e & Hm & Hc & He & Hwf & Hdis & Lm & Lc & Le) Hstep
                 |url self env self' env' _ (m & c & e & Hm & Hc & He & Hwf & Hdis & Lm & Lc & Le) Hpend Hstep
                 |n ts w self env self' env' _ (m & c & e & Hm & Hc & He & Hwf & Hdis & Lm & Lc & Le) Hinit].
  - rewrite (init_dicts n ts env m c e Hm Hc He) in Hinit.
    injection Hinit as <- <-. by exists m, c, e.
  - rewrite (collect_topic_dict topic self env m Hm) in Hstep. cbv zeta in Hstep.
    injection Hstep as <- <-.
    eexists _, c, e. simpl. rewrite Hc, He.
    split; [done|]. split; [done|]. split; [done|].
    split; [by apply merged_wf|]. split; [done|].
    split; [apply loads_insert|].
    split; by apply loads_insert_ne.
  - destruct (session_get url (world env)) as [r w1] eqn:Hget.
    rewrite (process_url_dicts self url env c e r w1 Hc He Hget) in Hstep.
    injection Hstep as <- <-.
    destruct (settle_settle_dicts url r c e self Hc He)
      as (Hc1 & He1 & Hm1 & _).
    unfold is_pending, bind, lift, ret in Hpend. rewrite Hc, He in Hpend.
    simpl in Hpend. destruct (Dict.mem url c) eqn:Huc; [done|].
    destruct (Dict.mem url e) eqn:Hue; [done|].
    apply DictFacts.mem_false in Huc, Hue.
    eexists m, _, _. rewrite Hc1, He1, Hm1.
    split; [done|]. split; [done|]. split; [done|]. split; [done|].
    split.
    { intros k Hk1 Hk2.
      apply (settle_dicts_keys (c, e) (url, r)) in Hk1.
      apply (settle_dicts_keys (c, e) (url, r)) in Hk2. simpl in *.
      destruct Hk1 as [Hk1|[Hku [mk Hmk]]]; destruct Hk2 as [Hk2|[Hku' [rn Hrn]]];
        subst; try done; [by eapply Hdis|congruence]. }
    unfold after_url. simpl. rewrite Hc1, He1.
    split; [by repeat (apply loads_insert_ne; [done|])|].
    split; [apply loads_insert_ne; [done|apply loads_insert]|apply loads_insert].
  - rewrite (init_dicts n ts (mkEnv w (fs env) (dataset env) (trace env)) m c e Lm Lc Le)
      in Hinit.
    injection Hinit as <- <-. by exists m, c, e.
Qed.

Lemma is_pending_dicts self (env : Env) u c e :
  completed_urls self = PDict c →
  error_urls self = PDict e →
  is_pending self u env = (inr (negb (Dict.mem u c) && negb (Dict.mem u e)), env).
Proof.
  intros Hc He. unfold is_pending, bind, lift, ret. rewrite Hc, He. simpl.
  by destruct (Dict.mem u c).
Qed.

(** The discovery loop moves through reachable states. *)
Lemma discovery_reachable ts : ∀ self env,
  reachable self env →
  ∃ self' env',
    for_ ts (collect_topic search) self env = (inr self', env') ∧
    reachable self' env'.
Proof.
  induction ts as [|t ts IH]; intros self env Hreach.
  - by exists self, env.
  - destruct (reachable_store_ok _ _ Hreach) as (m & c & e & Hm & _).
    pose proof (collect_topic_dict t self env m Hm) as Hstep. cbv zeta in Hstep.
    destruct (IH _ _ (reach_topic _ _ _ _ _ _ _ Hreach Hstep))
      as (self' & env' & Hrun & Hreach').
    exists self', env'. split; [|done]. simpl. unfold bind at 1. by rewrite Hstep.
Qed.

(** So does the loop over URLs that are in neither dict, each listed once. *)
Lemma loop_reachable ps : ∀ self env c e,
  reachable self env →
  completed_urls self = PDict c →
  error_urls self = PDict e →
  NoDup ps →
  (∀ u, u ∈ ps → u ∉ Dict.keys c ∧ u ∉ Dict.keys e) →
  ∃ self' env',
    for_ ps (process_url session_get) self env = (inr self', env') ∧
    reachable self' env'.
Proof.
  induction ps as [|u ps IH]; intros self env c e Hreach Hc He Hnd Hfresh.
  - by exists self, env.
  - apply NoDup_cons in Hnd as [Hu Hnd].
    destruct (Hfresh u) as [Huc Hue]; [by left|].
    assert (Hpend : is_pending self u env = (inr true, env)).
    { rewrite (is_pending_dicts self env u c e Hc He).
      apply DictFacts.mem_false in Huc, Hue. by rewrite Huc, Hue. }
    destruct (session_get u (world env)) as [r w1] eqn:Hget.
    pose proof (process_url_dicts self u env c e r w1 Hc He Hget) as Hstep.
    destruct (settle_settle_dicts u r c e self Hc He) as (Hc1 & He1 & _).
    destruct (IH _ _ _ _ (reach_url _ _ _ _ _ _ _ Hreach Hpend Hstep) Hc1 He1 Hnd)
      as (self' & env' & Hrun & Hreach').
    { intros u' Hu'. destruct (Hfresh u') as [Hc' He']; [by right|].
      assert (u' ≠ u) by (intros ->; done).
      split; intros Hk; apply (settle_dicts_keys (c, e) (u, r)) in Hk; simpl in Hk;
        naive_solver. }
    exists self', env'. split; [|done]. simpl. unfold bind at 1. by rewrite Hstep.
Qed.

(** A run from a reachable state returns, in a reachable state. *)
Lemma process_urls_reachable self env :
  reachable self env →
  ∃ self' env',
    process_urls session_get search self env = (inr self', env') ∧
    reachable self' env'.
Proof.
  intros Hreach. unfold process_urls.
  assert (∃ self1 env1,
    (if negb (truthy (master_urls self))
     then for_ (topics self) (collect_topic search) self
     else ret self) env = (inr self1, env1) ∧ reachable self1 env1)
    as (self1 & env1 & Hdisc & Hreach1).
  { destruct (negb (truthy (master_urls self))).
    - by apply discovery_reachable.
    - by exists self, env. }
  destruct (reachable_store_ok _ _ Hreach1) as (m & c & e & Hm & Hc & He & Hwf & _).
  unfold bind at 1. rewrite Hdisc. unfold bind at 1.
  rewrite (pending_urls_dicts self1 env1 m c e Hm Hc He).
  apply (loop_reachable _ _ _ c e Hreach1 Hc He).
  - by apply pending_of_NoDup.
  - intros u Hu. apply pending_of_spec in Hu. tauto.
Qed.

Lemma pending_of_length m c e :
  Dict.wf m → Dict.wf c → Dict.wf e →
  (∀ k, k ∈ Dict.keys c → k ∈ Dict.keys m) →
  (∀ k, k ∈ Dict.keys e → k ∈ Dict.keys m) →
  Dict.disjoint c e →
  (length (pending_of m c e) + length c + length e = length m)%nat.
Proof.
  intros Hm Hc He Hcm Hem Hdis. unfold pending_of.
  set (f := λ u, negb (Dict.mem u c) && negb (Dict.mem u e)).
  pose proof (List.filter_length f (Dict.keys m)) as Hlen.
  assert (Hperm : List.filter (λ x, negb (f x)) (Dict.keys m) ≡ₚ
                  (Dict.keys c ++ Dict.keys e)%list).
  { apply NoDup_Permutation.
    - apply NoDup_ListNoDup, List.NoDup_filter. by apply NoDup_ListNoDup.
    - apply NoDup_app. repeat split; [done| |done]. intros k Hk1 Hk2. by eapply Hdis.
    - intros k. rewrite list_elem_of_In, filter_In, <- list_elem_of_In, elem_of_app.
      subst f. simpl. rewrite negb_andb, !negb_involutive, orb_true_iff.
      rewrite !DictFacts.mem_true. naive_solver. }
  apply Permutation_length in Hperm. rewrite length_app in Hperm.
  unfold Dict.keys in *. rewrite !length_fmap in *. lia.
Qed.

Lemma process_urls_loop_start self (env : Env) m c e :
  master_urls self = PDict m →
  completed_urls self = PDict c →
  error_urls self = PDict e →
  let ps := (loop_start self m c e (world env)).1 in
  let rs := (fetches ps (loop_start self m c e (world env)).2).1 in
  ∃ self' env' evs m',
    process_urls session_get search self env = (inr self', env') ∧
    master_urls self' = PDict m' ∧ (truthy (PDict m) = true → m' = m) ∧
    (Dict.wf m → Dict.wf m') ∧
    (∀ u, u ∈ ps ↔ u ∈ Dict.keys m' ∧ u ∉ Dict.keys c ∧ u ∉ Dict.keys e) ∧
    completed_urls self' = PDict (settled rs (c, e)).1 ∧
    error_urls self' = PDict (settled rs (c, e)).2 ∧
    dataset env' = (dataset env ++ records rs)%list ∧
    trace env' = (trace env ++ evs ++ map EvScrape ps)%list ∧
    evs = (if truthy (PDict m) then []
           else searches (topics self) (urls_per_topic self)) ∧
    (truthy (PDict m) = true → fs env' !! master_file = fs env !! master_file).
Proof.
  intros Hm Hc He. cbv zeta.
  destruct (process_urls_dicts self env m c e Hm Hc He)
    as (self' & env' & Hrun & Hm' & Hc' & He' & Hd' & Htr' & Hfs' & _).
  unfold loop_start. cbv zeta. simpl fst. simpl snd.
  eexists self', env', _, _. split; [exact Hrun|]. split; [exact Hm'|].
  split. { by intros ->. }
  split. { intros Hwf. destruct (truthy (PDict m)); [done|]. by apply discovered_wf. }
  split. { intros u. apply pending_of_spec. }
  split; [exact Hc'|]. split; [exact He'|]. split; [exact Hd'|].
  split; [exact Htr'|]. split; [done|]. exact Hfs'.
Qed.

(** ** The claims about [process_urls] *)

(** *** What the loop over URLs leaves alone, on any object *)

Lemma bind_eq {E A B} (c : py E A) (k : A → py E B) env :
  bind c k env = match c env with
                 | (inr a, env') => k a env'
                 | (inl e, env') => (inl e, env')
                 end.
Proof. reflexivity. Qed.

Lemma scrape_frame self url (env : Env) :
  fs (scrape self url env).2 = fs env ∧
  dataset (scrape self url env).2 = dataset env ∧
  trace (scrape self url env).2 = (trace env ++ [EvScrape url])%list ∧
  ∀ self' result, (scrape self url env).1 = inr (self', result) →
    master_urls self' = master_urls self.
Proof.
  unfold scrape_website, bind, try_except, tell, call, lift, ret, raise. simpl.
  destruct (session_get url (world env)) as [[exn|resp] w]; simpl.
  - destruct (setitem (error_urls self) url (PStr (exc_str exn))); simpl;
      repeat split; try done. by intros ? ? [= <- _].
  - destruct (status resp =? 200); simpl.
    + destruct (text resp) as [exn|markup]; simpl.
      * destruct (setitem (error_urls self) url (PStr (exc_str exn))); simpl;
          repeat split; try done. by intros ? ? [= <- _].
      * repeat split; try done. by intros ? ? [= <- _].
    + destruct (setitem (error_urls self) url _); simpl;
        repeat split; try done. by intros ? ? [= <- _].
Qed.

Lemma process_url_frame url self (env : Env) :
  fs (process_url session_get url self env).2 !! master_file = fs env !! master_file ∧
  trace (process_url session_get url self env).2 = (trace env ++ [EvScrape url])%list ∧
  ∀ self', (process_url session_get url self env).1 = inr self' →
    master_urls self' = master_urls self.
Proof.
  destruct (scrape_frame self url env) as (Hfs & _ & Htr & Hm).
  unfold process_url. rewrite bind_eq.
  destruct (scrape self url env) as [[exn|[self1 result]] env1]; simpl in *.
  - rewrite Hfs. by repeat split.
  - specialize (Hm self1 result eq_refl).
    unfold bind, lift, append_jsonl, json_dump, ret.
    destruct (truthy result); simpl.
    + destruct (setitem (completed_urls self1) url result); simpl.
      * rewrite Hfs. by repeat split.
      * rewrite !lookup_insert_ne, Hfs by done. repeat split; try done.
        by intros ? [= <-].
    + rewrite !lookup_insert_ne, Hfs by done. repeat split; try done.
      by intros ? [= <-].
Qed.

Lemma loop_frame ps : ∀ self (env : Env),
  fs (for_ ps (process_url session_get) self env).2 !! master_file
    = fs env !! master_file ∧
  (∃ ps', trace (for_ ps (process_url session_get) self env).2
          = (trace env ++ map EvScrape ps')%list) ∧
  ∀ self', (for_ ps (process_url session_get) self env).1 = inr self' →
    master_urls self' = master_urls self.
Proof.
  induction ps as [|u ps IH]; intros self env.
  - simpl. split; [done|]. split; [exists []; by rewrite app_nil_r|].
    by intros ? [= <-].
  - destruct (process_url_frame u self env) as (Hfs & Htr & Hm).
    simpl. rewrite bind_eq.
    destruct (process_url session_get u self env) as [[exn|self1] env1]; simpl in *.
    + split; [done|]. split; [by exists [u]|]. done.
    + destruct (IH self1 env1) as (Hfs' & (ps' & Htr') & Hm').
      split; [congruence|]. split.
      * exists (u :: ps'). rewrite Htr', Htr. by rewrite <- app_assoc.
      * intros self' Hrun. rewrite (Hm' _ Hrun). by apply Hm.
Qed.

Lemma filter_frame {A} (cond : A → py Env bool) xs (env : Env) :
  (∀ x, (cond x env).2 = env) → (filter_ cond xs env).2 = env.
Proof.
  intros Hcond. induction xs as [|x xs IH]; [done|].
  simpl. rewrite bind_eq. specialize (Hcond x).
  destruct (cond x env) as [[exn|b] env1]; simpl in *; subst; [done|].
  rewrite bind_eq. destruct (filter_ cond xs env) as [[exn|rest] env2]; simpl in *;
    by subst.
Qed.

Lemma pending_urls_frame self (env : Env) : (pending_urls self env).2 = env.
Proof.
  unfold pending_urls. rewrite bind_eq. unfold lift.
  destruct (keys (master_urls self)) as [exn|ks]; [done|].
  apply filter_frame. intros u. unfold is_pending, bind, lift, ret.
  destruct (contains u (completed_urls self)) as [|[|]]; try done.
  by destruct (contains u (error_urls self)).
Qed.

(** C3.  Discovery is skipped when the discovered-set is not empty: on any
    object whose [master_urls] is truthy, whatever its topics, a run
    invokes no search (what it adds to the trace are calls of
    [scrape_website] only), does not write the discovered-set file, and
    returns the object with the discovered-set it had; and on an object
    that holds three dicts the run does return. *)
Theorem discovery_skipped_when_discovered self (env : Env) :
  truthy (master_urls self) = true →
  (∃ ps, trace (process_urls session_get search self env).2
         = (trace env ++ map EvScrape ps)%list) ∧
  (∀ topic n, EvSearch topic n ∈ trace (process_urls session_get search self env).2 →
              EvSearch topic n ∈ trace env) ∧
  fs (process_urls session_get search self env).2 !! master_file
    = fs env !! master_file ∧
  (∀ self', (process_urls session_get search self env).1 = inr self' →
            master_urls self' = master_urls self) ∧
  (∀ m c e, master_urls self = PDict m → completed_urls self = PDict c →
            error_urls self = PDict e →
            ∃ self', (process_urls session_get search self env).1 = inr self').
Proof.
  intros Ht.
  assert (Hrun : process_urls session_get search self env =
                 (pending <- pending_urls self ;;
                  for_ pending (process_url session_get) self) env).
  { unfold process_urls. by rewrite Ht. }
  rewrite Hrun, bind_eq. pose proof (pending_urls_frame self env) as Hp.
  destruct (pending_urls self env) as [[exn|ps] env1] eqn:Hpend; simpl in Hp; subst env1.
  - simpl. split; [exists []; by rewrite app_nil_r|]. split; [done|].
    split; [done|]. split; [done|].
    intros m c e Hm Hc He.
    by rewrite (pending_urls_dicts self env m c e Hm Hc He) in Hpend.
  - destruct (loop_frame ps self env) as (Hfs & (ps' & Htr) & Hm).
    split; [by exists ps'|]. split.
    { intros topic n. rewrite Htr, elem_of_app, list_elem_of_fmap.
      intros [?|(u & Hu & _)]; [done|discriminate]. }
    split; [done|]. split; [done|].
    intros m c e Hm' Hc He.
    destruct (loop_dicts ps self env c e Hc He) as (self' & env' & Hloop & _).
    exists self'. by rewrite Hloop.
Qed.

(** C2, amended.  On a loaded state whose discovered-set is a non-empty
    dict of N URLs, K of them keys of the completed-set and F of the
    failed-set (both within the discovered keys, and disjoint), a run
    computes a pending list of exactly N - K - F URLs, each listed once:
    the discovered URLs in neither set.  The run returns and invokes
    [scrape_website] once for each of them, in order, and for no other
    URL. *)
Theorem resumed_run_processes_pending self env m c e :
  master_urls self = PDict m →
  m ≠ [] →
  completed_urls self = PDict c →
  error_urls self = PDict e →
  Dict.wf m → Dict.wf c → Dict.wf e →
  (∀ k, k ∈ Dict.keys c → k ∈ Dict.keys m) →
  (∀ k, k ∈ Dict.keys e → k ∈ Dict.keys m) →
  Dict.disjoint c e →
  ∃ ps self' env',
    pending_urls self env = (inr ps, env) ∧
    Z.of_nat (length ps) =
      Z.of_nat (length m) - Z.of_nat (length c) - Z.of_nat (length e) ∧
    NoDup ps ∧
    (∀ u, u ∈ ps ↔ u ∈ Dict.keys m ∧ u ∉ Dict.keys c ∧ u ∉ Dict.keys e) ∧
    process_urls session_get search self env = (inr self', env') ∧
    trace env' = (trace env ++ map EvScrape ps)%list.
Proof.
  intros Hm Hne Hc He Hwm Hwc Hwe Hcm Hem Hdis.
  assert (Ht : truthy (PDict m) = true) by (by destruct m).
  destruct (process_urls_loop_start self env m c e Hm Hc He)
    as (self' & env' & evs & m' & Hrun & _ & _ & _ & _ & _ & _ & _ & Htr & Hevs & _).
  unfold loop_start in Htr. cbv zeta in Htr. rewrite Ht in Htr, Hevs.
  subst evs. simpl in Htr.
  exists (pending_of m c e), self', env'.
  split; [by apply pending_urls_dicts|].
  split. { pose proof (pending_of_length m c e Hwm Hwc Hwe Hcm Hem Hdis). lia. }
  split; [by apply pending_of_NoDup|].
  split; [apply pending_of_spec|]. by split.
Qed.

(** C6, amended.  Take a run on three dicts, the discovered one with
    distinct keys, and a pending URL whose fetch fails with some reason
    during the run.  The run returns and scrapes every pending URL, those
    after the failed one included; afterwards the URL is a key of the
    failed-set, mapped to that reason, which is [str(e)] of the failure
    (["HTTP <status>"], not empty, for a status other than 200; possibly
    empty for an exception); the completed-set has no entry for it, and no
    record appended to the output carries its URL. *)
Theorem failed_url_is_isolated self env m c e u r reason :
  master_urls self = PDict m →
  completed_urls self = PDict c →
  error_urls self = PDict e →
  Dict.wf m →
  let ps := (loop_start self m c e (world env)).1 in
  (u, r) ∈ (fetches ps (loop_start self m c e (world env)).2).1 →
  classify r = inl reason →
  ∃ self' env' evs out,
    process_urls session_get search self env = (inr self', env') ∧
    u ∈ ps ∧
    trace env' = (trace env ++ evs ++ map EvScrape ps)%list ∧
    item (error_urls self') u = Some (PStr reason) ∧
    (∀ resp, r = inr resp → status resp ≠ 200 →
       reason = "HTTP " +:+ pretty (status resp) ∧ reason ≠ "") ∧
    item (completed_urls self') u = None ∧
    dataset env' = (dataset env ++ out)%list ∧
    (∀ o, o ∈ out → item o "url" ≠ Some (PStr u)).
Proof.
  intros Hm Hc He Hwf ps Hur Hr.
  destruct (process_urls_loop_start self env m c e Hm Hc He)
    as (self' & env' & evs & m' & Hrun & Hm' & _ & Hwf' & Hps & Hc' & He' & Hd & Htr & _).
  fold ps in Hps, Hc', He', Hd, Htr.
  set (rs := (fetches ps (loop_start self m c e (world env)).2).1) in *.
  assert (Hurls : rs.*1 = ps) by apply fetches_urls.
  assert (Hnd : NoDup rs.*1).
  { rewrite Hurls. unfold ps, loop_start. cbv zeta. simpl fst.
    apply pending_of_NoDup.
    destruct m; simpl; [by apply discovered_wf|exact Hwf]. }
  assert (Hu : u ∈ ps).
  { rewrite <- Hurls. apply list_elem_of_fmap. by exists (u, r). }
  exists self', env', evs, (records rs).
  split; [done|]. split; [done|]. split; [done|].
  split. { rewrite He'. simpl. by eapply settled_get_failed. }
  split.
  { intros resp -> Hst. simpl in Hr.
    destruct (Z.eqb_spec (status resp) 200); [done|]. by injection Hr as <-. }
  split.
  { rewrite Hc'. simpl. apply DictFacts.get_None. intros Hin.
    apply settled_keys_completed in Hin as [Hin|(r' & mk & Hin & Hmk)].
    - apply Hps in Hu. simpl in Hin. tauto.
    - assert (r' = r) by by eapply NoDup_fst_functional. congruence. }
  split; [done|].
  intros o (u' & r' & mk & Hin & Hmk & ->)%records_url. simpl.
  intros [= ->]. assert (r' = r) by by eapply NoDup_fst_functional. congruence.
Qed.

(** C1.  In every reachable state of the store (after loading files that
    hold disjoint completed and failed dicts, after any pass of the
    discovery loop or of the loop over a pending URL, after any later
    process loads what was saved) no URL is a key of both the
    completed-set and the failed-set.  A pass of the loop on a URL either
    records a reason under it in the failed-set, the completed-set and the
    output untouched, or records a result under it in the completed-set,
    the failed-set untouched.  The pending list holds no key of either
    set, and a run from the state returns in a reachable state, having
    scraped no URL that was a key of either set. *)
Theorem completed_and_failed_exclusive self env :
  reachable self env →
  ∃ c e,
    completed_urls self = PDict c ∧
    error_urls self = PDict e ∧
    (∀ url, ¬ (url ∈ Dict.keys c ∧ url ∈ Dict.keys e)) ∧
    (∀ url, ∃ self' env',
       process_url session_get url self env = (inr self', env') ∧
       ((∃ reason,
           error_urls self' = PDict (Dict.set url (PStr reason) e) ∧
           completed_urls self' = PDict c ∧ dataset env' = dataset env) ∨
        (∃ result,
           completed_urls self' = PDict (Dict.set url result c) ∧
           error_urls self' = PDict e))) ∧
    (∃ ps, pending_urls self env = (inr ps, env) ∧
           ∀ u, u ∈ ps → u ∉ Dict.keys c ∧ u ∉ Dict.keys e) ∧
    (∃ self' env' evs,
       process_urls session_get search self env = (inr self', env') ∧
       reachable self' env' ∧
       trace env' = (trace env ++ evs)%list ∧
       ∀ u, EvScrape u ∈ evs → u ∉ Dict.keys c ∧ u ∉ Dict.keys e).
Proof.
  intros Hreach.
  destruct (reachable_store_ok _ _ Hreach)
    as (m & c & e & Hm & Hc & He & Hwf & Hdis & _).
  exists c, e. split; [done|]. split; [done|].
  split. { intros url [H1 H2]. by eapply Hdis. }
  split.
  { intros url. destruct (session_get url (world env)) as [r w1] eqn:Hget.
    eexists _, _. split; [by apply (process_url_dicts self url env c e r w1)|].
    unfold settle, appended, after_url. destruct (classify r) as [reason|markup].
    - left. exists reason. simpl. by rewrite app_nil_r.
    - right. exists (extraction url markup). by simpl. }
  split.
  { exists (pending_of m c e). split; [by apply pending_urls_dicts|].
    intros u Hu%pending_of_spec. tauto. }
  destruct (process_urls_reachable self env Hreach) as (self' & env' & Hrun & Hreach').
  destruct (process_urls_loop_start self env m c e Hm Hc He)
    as (self2 & env2 & evs & m' & Hrun2 & _ & _ & _ & Hps & _ & _ & _ & Htr & Hevs & _).
  rewrite Hrun in Hrun2. injection Hrun2 as <- <-.
  eexists self', env', _. split; [done|]. split; [done|]. split; [exact Htr|].
  intros u [Hin|Hin]%elem_of_app.
  - subst evs. destruct (truthy (PDict m)); [inversion Hin|].
    unfold searches in Hin. apply list_elem_of_fmap in Hin as (? & ? & _). discriminate.
  - apply list_elem_of_fmap in Hin as (u' & [= ->] & Hu'). apply Hps in Hu'. tauto.
Qed.

(** ** The claim about the request count *)

(** C4.  The object built from the count W and a topic string holds
    T >= 1 topics (the comma-separated parts; the T topics of a list
    joined with commas) and [urls_per_topic = W // T], the floor of the
    division.  A discovery run asks the search provider for that many
    results per topic, T * (W // T) in all, at most W (for W >= 0) and
    short of W by the remainder: with W = 10 and T = 3 it is 3 per topic
    and 9 in all. *)
Theorem urls_per_topic_is_floor_division W ts (env : Env) self env' :
  __init__ W ts env = (inr self, env') →
  (1 ≤ length (topics self))%nat ∧
  urls_per_topic self = W / Z.of_nat (length (topics self)) ∧
  (∀ l, l ≠ [] → Forall (λ t, ","%char ∉ list_ascii_of_string t) l →
        ts = String.concat "," l → topics self = map strip l) ∧
  (W = 10 → length (topics self) = 3%nat → urls_per_topic self = 3) ∧
  (∀ c e env1,
     master_urls self = PDict [] →
     completed_urls self = PDict c →
     error_urls self = PDict e →
     ∃ self2 env2 evs,
       process_urls session_get search self env1 = (inr self2, env2) ∧
       trace env2 = (trace env1 ++ evs)%list ∧
       requested evs = Z.of_nat (length (topics self)) * urls_per_topic self ∧
       requested evs = W - W mod Z.of_nat (length (topics self)) ∧
       (0 ≤ W → requested evs ≤ W) ∧
       (W = 10 → length (topics self) = 3%nat → requested evs = 9)).
Proof.
  intros Hinit. unfold __init__ in Hinit. rewrite bind_eq in Hinit.
  unfold lift, floordiv in Hinit.
  pose proof (split_on_length "," ts) as Hlen.
  set (tl := map strip (split_on "," ts)) in *.
  assert (Htl : length tl = length (split_on "," ts)) by apply length_map.
  destruct (Z.eqb_spec (Z.of_nat (length tl)) 0) as [|_]; [lia|].
  unfold bind in Hinit.
  destruct (_load_or_create_json master_file env) as [[?|m] env1]; [done|].
  destruct (_load_or_create_json completed_file env1) as [[?|c] env2]; [done|].
  destruct (_load_or_create_json errors_file env2) as [[?|e] env3]; [done|].
  injection Hinit as <- <-. simpl.
  split; [lia|]. split; [done|].
  split. { intros l Hne Hl ->. subst tl. by rewrite split_on_concat. }
  split. { intros -> ->. done. }
  intros c' e' env0 [= ->] [= ->] [= ->].
  set (self := mkScrapeMaster _ _ _ _ _ _).
  destruct (process_urls_loop_start self env0 [] c' e' eq_refl eq_refl eq_refl)
    as (self2 & env4 & evs & m' & Hrun & _ & _ & _ & _ & _ & _ & _ & Htr & Hevs & _).
  simpl in Hevs.
  eexists self2, env4, _. split; [exact Hrun|]. split; [exact Htr|].
  assert (Hreq : requested (evs ++ map EvScrape (loop_start self [] c' e' (world env0)).1)
                 = Z.of_nat (length tl) * (W / Z.of_nat (length tl))).
  { by rewrite requested_app, requested_scrapes, Hevs, requested_searches, Z.add_0_r. }
  assert (Hpos : 0 < Z.of_nat (length tl)) by lia.
  split; [exact Hreq|]. split.
  { rewrite Hreq. pose proof (Z.div_mod W (Z.of_nat (length tl))). lia. }
  split.
  - intros HW. rewrite Hreq. apply Z.mul_div_le. lia.
  - intros -> Hl3. rewrite Hreq, Hl3. done.
Qed.

End RunFacts.

(** ** The command line *)

Section MainFacts.

Context {World : Type}.
Variable session_get : string → World → (pyexc + response) * World.
Variable search : string → Z → World → (pyexc + list string) * World.
Variable yaml_safe_load : file_body → pyexc + pyobj.
Variable read : file_body → pyexc + string.
Variable re_findall_bullets : string → list string.
Variable os_exists : string → World → pyexc + bool.

Local Abbreviation Env := (Env World).
Local Abbreviation main :=
  (main session_get search yaml_safe_load read re_findall_bullets os_exists).
Local Abbreviation load_topics_from_file :=
  (load_topics_from_file yaml_safe_load read re_findall_bullets os_exists).
Local Abbreviation path_exists := (path_exists os_exists).

Lemma path_exists_run p (env : Env) :
  path_exists p env = ((path_exists p env).1, env).
Proof. unfold path_exists. by destruct (fs env !! p). Qed.

Lemma path_exists_file p (env : Env) :
  is_Some (fs env !! p) → path_exists p env = (inr true, env).
Proof. intros [body Hbody]. unfold path_exists. by rewrite Hbody. Qed.

Lemma load_topics_missing path (env : Env) :
  (path_exists path env).1 = inr false →
  load_topics_from_file path env =
    (inl (FileNotFoundError ("File not found: " +:+ path)), env).
Proof.
  intros Hno. unfold load_topics_from_file.
  rewrite bind_eq, path_exists_run, Hno. reflexivity.
Qed.

Lemma load_topics_unsupported path (env : Env) :
  (path_exists path env).1 = inr true →
  path_suffix path ∉ supported_suffixes →
  load_topics_from_file path env =
    (inl (ValueError ("Unsupported file format: " +:+ path_suffix path)), env).
Proof.
  intros Hex Hsuf. unfold load_topics_from_file.
  rewrite bind_eq, path_exists_run, Hex. change (negb true) with false.
  cbv iota zeta.
  unfold supported_suffixes in Hsuf.
  destruct (String.eqb_spec (path_suffix path) ".json"); [set_solver|].
  destruct (String.eqb_spec (path_suffix path) ".yaml"); [set_solver|].
  destruct (String.eqb_spec (path_suffix path) ".yml"); [set_solver|].
  destruct (String.eqb_spec (path_suffix path) ".txt"); [set_solver|].
  destruct (String.eqb_spec (path_suffix path) ".md"); [set_solver|].
  reflexivity.
Qed.

(** C7, amended.  [main] goes by what [Path(args.topics).exists()]
    answers.  When it answers [False] ([--topics] names nothing), [main]
    does not fail with a not-found error: it takes the argument as the
    literal comma-separated topic string, builds the scraper from it and
    runs it (the not-found error is what [load_topics_from_file] raises
    when called on such a path, which [main] never does).  When the test
    itself raises (the [OSError] of a name of more than 255 bytes, which
    a long literal list is), [main] fails with that error, the
    environment as it was.  When it answers [True] (a file of the
    directory always does) and the extension is none of .json, .yaml,
    .yml, .txt and .md (.csv, say), [main] fails with [ValueError]
    "Unsupported file format: <extension>" and leaves the environment as
    it was: no state is written. *)
Theorem topics_argument_dispatch args (env : Env) :
  ((path_exists (args_topics args) env).1 = inr false →
   main args env =
     (scraper <- __init__ (args_websites args) (args_topics args) ;;
      process_urls session_get search scraper ;;;
      ret tt) env ∧
   load_topics_from_file (args_topics args) env =
     (inl (FileNotFoundError ("File not found: " +:+ args_topics args)), env)) ∧
  (∀ exn, (path_exists (args_topics args) env).1 = inl exn →
     main args env = (inl exn, env)) ∧
  (is_Some (fs env !! args_topics args) →
   (path_exists (args_topics args) env).1 = inr true) ∧
  ((path_exists (args_topics args) env).1 = inr true →
   path_suffix (args_topics args) ∉ supported_suffixes →
   main args env =
     (inl (ValueError ("Unsupported file format: " +:+ path_suffix (args_topics args))),
      env)).
Proof.
  split; [|split; [|split]].
  - intros Hno. split; [|by apply load_topics_missing].
    unfold main. rewrite bind_eq, path_exists_run, Hno.
    rewrite bind_eq. reflexivity.
  - intros exn Hexn. unfold main. by rewrite bind_eq, path_exists_run, Hexn.
  - intros Hex. by rewrite path_exists_file.
  - intros Hex Hsuf. unfold main. rewrite bind_eq, path_exists_run, Hex.
    rewrite bind_eq, bind_eq. by rewrite load_topics_unsupported.
Qed.

End MainFacts.

(** ** The scenario, run *)

Module ScenarioFacts.
Import Scenario.

Lemma disk_ok_resumed : disk_ok (fs resumed).
Proof.
  exists discovered_items, completed_items, failed_items.
  split; [by_compute|]. split; [by_compute|]. split; [by_compute|].
  split; [unfold Dict.wf; decide_it|].
  intros k Hc He. vm_compute in Hc, He. set_solver.
Qed.

Lemma reachable_loaded : reachable net_get net_search loaded resumed.
Proof.
  apply (reach_init net_get net_search 10 "cats,dogs,birds" resumed loaded resumed).
  - apply disk_ok_resumed.
  - by_compute.
Qed.

(** The state loaded from the earlier run's files is reachable, and its
    completed and failed sets share no URL. *)
Lemma completed_and_failed_exclusive_witness :
  reachable net_get net_search loaded resumed ∧
  ∀ url, ¬ (url ∈ Dict.keys completed_items ∧ url ∈ Dict.keys failed_items).
Proof.
  split; [apply reachable_loaded|].
  destruct (completed_and_failed_exclusive net_get net_search loaded resumed
              reachable_loaded) as (c & e & Hc & He & Hex & _).
  injection Hc as <-. injection He as <-. exact Hex.
Defined.

Lemma wf_discovered_items : Dict.wf discovered_items.
Proof. unfold Dict.wf. decide_it. Qed.

(** C2, the claim as stated fails on a first run: nothing is loaded
    (N = K = F = 0, so N - K - F = 0), discovery fills the discovered-set,
    and the run scrapes three URLs. *)
Lemma first_run_scrapes_what_it_discovers :
  master_urls blank = PDict [] ∧
  completed_urls blank = PDict [] ∧
  error_urls blank = PDict [] ∧
  pending_urls blank fresh = (inr [], fresh) ∧
  ∃ self' env',
    process_urls net_get net_search blank fresh = (inr self', env') ∧
    trace env' = [EvSearch "cats" 3; EvSearch "dogs" 3; EvSearch "birds" 3;
                  EvScrape "https://cats.example"; EvScrape "https://slow.example";
                  EvScrape "https://gone.example"].
Proof.
  repeat split; try reflexivity. eexists _, _. split; by_compute.
Qed.

(** On the files of the earlier run (N = 3, K = 1, F = 1) the run scrapes
    the one URL left. *)
Lemma resumed_run_processes_pending_witness :
  ∃ self' env',
    pending_urls loaded resumed = (inr ["https://slow.example"], resumed) ∧
    process_urls net_get net_search loaded resumed = (inr self', env') ∧
    trace env' = [EvScrape "https://slow.example"].
Proof.
  destruct (resumed_run_processes_pending net_get net_search loaded resumed
              discovered_items completed_items failed_items)
    as (ps & self' & env' & Hp & _ & _ & _ & Hrun & Htr).
  - reflexivity.
  - discriminate.
  - reflexivity.
  - reflexivity.
  - apply wf_discovered_items.
  - unfold Dict.wf. decide_it.
  - unfold Dict.wf. decide_it.
  - intros k Hk. vm_compute in Hk. vm_compute. set_solver.
  - intros k Hk. vm_compute in Hk. vm_compute. set_solver.
  - intros k Hc He. vm_compute in Hc, He. set_solver.
  - exists self', env'.
    assert (Hps : ps = ["https://slow.example"]).
    { assert (H : pending_urls loaded resumed = (inr ["https://slow.example"], resumed))
        by by_compute.
      rewrite H in Hp. by injection Hp as <-. }
    subst ps. split; [exact Hp|]. split; [exact Hrun|]. exact Htr.
Defined.

(** On the files of the earlier run no search is invoked. *)
Lemma discovery_skipped_when_discovered_witness :
  (∀ topic n, EvSearch topic n ∉ trace (process_urls net_get net_search loaded resumed).2) ∧
  fs (process_urls net_get net_search loaded resumed).2 !! master_file
    = Some (JsonDoc (PDict discovered_items)).
Proof.
  destruct (discovery_skipped_when_discovered net_get net_search loaded resumed eq_refl)
    as (_ & Hno & Hfs & _).
  split.
  - intros topic n Hin%Hno. vm_compute in Hin. inversion Hin.
  - rewrite Hfs. by_compute.
Defined.

(** C6, the claim as stated fails on a timeout: [str] of the exception is
    empty, and the empty string is the reason recorded. *)
Lemma timeout_reason_is_empty :
  net_get "https://slow.example" tt = (inl (PyExc "TimeoutError" ""), tt) ∧
  ∃ self' env',
    process_urls net_get net_search loaded resumed = (inr self', env') ∧
    trace env' = [EvScrape "https://slow.example"] ∧
    item (error_urls self') "https://slow.example" = Some (PStr "").
Proof.
  split; [reflexivity|]. eexists _, _. repeat split; by_compute.
Qed.

(** On a first run the URL answered 404 is recorded with its status, and
    the URLs after it are scraped. *)
Lemma failed_url_is_isolated_witness :
  ∃ self' env',
    process_urls net_get net_search blank fresh = (inr self', env') ∧
    item (error_urls self') "https://gone.example" = Some (PStr "HTTP 404") ∧
    item (completed_urls self') "https://gone.example" = None.
Proof.
  destruct (failed_url_is_isolated net_get net_search blank fresh [] [] []
              "https://gone.example" (inr (Response 404 (inr []))) "HTTP 404")
    as (self' & env' & evs & out & Hrun & _ & _ & He & _ & Hc & _).
  - reflexivity.
  - reflexivity.
  - reflexivity.
  - apply NoDup_nil_2.
  - vm_compute. set_solver.
  - reflexivity.
  - exists self', env'. split; [exact Hrun|]. split; [exact He|exact Hc].
Defined.

(** The request count of the scenario: 10 websites over 3 topics. *)
Lemma urls_per_topic_is_floor_division_witness :
  __init__ 10 "cats, dogs,birds" fresh = (inr blank, fresh) ∧
  urls_per_topic blank = 3 ∧
  ∃ self' env' evs,
    process_urls net_get net_search blank fresh = (inr self', env') ∧
    trace env' = evs ∧ requested evs = 9.
Proof.
  assert (Hinit : __init__ 10 "cats, dogs,birds" fresh = (inr blank, fresh))
    by by_compute.
  destruct (urls_per_topic_is_floor_division net_get net_search 10
              "cats, dogs,birds" fresh blank fresh Hinit)
    as (_ & _ & _ & H3 & Hreq).
  split; [exact Hinit|]. split; [by apply H3|].
  destruct (Hreq [] [] fresh eq_refl eq_refl eq_refl)
    as (self' & env' & evs & Hrun & Htr & _ & _ & _ & H9).
  exists self', env', evs. split; [exact Hrun|]. split; [exact Htr|]. by apply H9.
Defined.

(** C7, the claim as stated fails on a missing file: [--topics
    topics.json] with no such file is searched for as a topic, the run
    ends normally and the discovered-set file is written. *)
Lemma missing_topics_file_is_a_topic :
  fs fresh !! "topics.json" = None ∧
  path_exists plain_dir "topics.json" fresh = (inr false, fresh) ∧
  ∃ env',
    main net_get net_search no_yaml raw_text no_bullets plain_dir
      (mkArgs 10 "topics.json") fresh
      = (inr tt, env') ∧
    trace env' = [EvSearch "topics.json" 10] ∧
    fs env' !! master_file = Some (JsonDoc (PDict [])).
Proof.
  split; [reflexivity|]. split; [by_compute|]. eexists. repeat split; by_compute.
Qed.

(** An existing [topics.csv] stops [main] with nothing written; a missing
    path given to [load_topics_from_file] is not found, and given to
    [main] it is a topic; a literal topic longer than a file name may be
    stops [main] at the test. *)
Lemma topics_argument_dispatch_witness :
  main net_get net_search no_yaml raw_text no_bullets plain_dir
    (mkArgs 10 "topics.csv") with_csv
    = (inl (ValueError "Unsupported file format: .csv"), with_csv) ∧
  load_topics_from_file no_yaml raw_text no_bullets plain_dir "topics.json" fresh
    = (inl (FileNotFoundError "File not found: topics.json"), fresh) ∧
  main net_get net_search no_yaml raw_text no_bullets plain_dir
    (mkArgs 10 "topics.json") fresh
    = (scraper <- __init__ 10 "topics.json" ;;
       process_urls net_get net_search scraper ;;;
       ret tt) fresh ∧
  ∃ exn,
    main net_get net_search no_yaml raw_text no_bullets plain_dir
      (mkArgs 10 long_topic) fresh
      = (inl exn, fresh) ∧
    exc_type exn = "OSError".
Proof.
  destruct (topics_argument_dispatch net_get net_search no_yaml raw_text no_bullets
              plain_dir (mkArgs 10 "topics.csv") with_csv) as (_ & _ & Hfile & Hcsv).
  destruct (topics_argument_dispatch net_get net_search no_yaml raw_text no_bullets
              plain_dir (mkArgs 10 "topics.json") fresh) as (Hmissing & _).
  destruct (topics_argument_dispatch net_get net_search no_yaml raw_text no_bullets
              plain_dir (mkArgs 10 long_topic) fresh) as (_ & Hlong & _).
  split.
  { apply Hcsv.
    - apply Hfile. by eexists.
    - vm_compute. set_solver. }
  assert (Hno : (path_exists plain_dir "topics.json" fresh).1 = inr false) by by_compute.
  split; [exact (proj2 (Hmissing Hno))|]. split; [exact (proj1 (Hmissing Hno))|].
  exists (OSError ("[Errno 36] File name too long: '" +:+ long_topic +:+ "'")).
  split; [|reflexivity]. apply Hlong. by_compute.
Defined.

(** C8, the code at the failing input: a failed-set file holding the JSON
    list [[]] is loaded without an error, and the object is built with
    the list as its failed-set. *)
Theorem list_store_loads_without_error :
  _load_or_create_json errors_file with_list = (inr (PList []), with_list) ∧
  __init__ 10 "cats" with_list =
    (inr (mkScrapeMaster 10 ["cats"] 10 (PDict []) (PDict []) (PList [])), with_list).
Proof. split; by_compute. Qed.

(** C5, the code at the failing input: on the object [__init__] builds
    from a failed-set file holding the JSON list [[]], a fetch that times
    out does not come back as [None]: [TypeError] is raised out of the
    handler to the caller of [scrape_website], and no reason is
    recorded. *)
Theorem list_store_breaks_the_handler :
  __init__ 10 "cats" with_list = (inr Corrupted.unlisted, with_list) ∧
  net_get "https://slow.example" tt = (inl (PyExc "TimeoutError" ""), tt) ∧
  scrape_website net_get Corrupted.unlisted "https://slow.example" with_list
  = (inl (TypeError "list indices must be integers or slices, not str"),
     after_scrape "https://slow.example" tt with_list).
Proof. split; [|split]; by_compute. Qed.

(** C10, the code at the failing input: on the same object a response
    with status 404 is not classified as failed: the handler raises
    [TypeError], ["HTTP 404"] is recorded nowhere and [None] is not
    returned. *)
Theorem list_store_loses_the_status :
  __init__ 10 "cats" with_list = (inr Corrupted.unlisted, with_list) ∧
  net_get "https://gone.example" tt = (inr (Response 404 (inr [])), tt) ∧
  scrape_website net_get Corrupted.unlisted "https://gone.example" with_list
  = (inl (TypeError "list indices must be integers or slices, not str"),
     after_scrape "https://gone.example" tt with_list).
Proof. split; [|split]; by_compute. Qed.

(** The same store file under a run: the first URL is scraped, the
    timeout of the second raises out of the run, and the third pending
    URL is never scraped. *)
Lemma list_store_aborts_the_run :
  __init__ 10 "cats" Corrupted.with_pending
    = (inr Corrupted.pending_unlisted, Corrupted.with_pending) ∧
  pending_urls Corrupted.pending_unlisted Corrupted.with_pending
    = (inr ["https://cats.example"; "https://slow.example"; "https://gone.example"],
       Corrupted.with_pending) ∧
  ∃ env',
    process_urls net_get net_search Corrupted.pending_unlisted Corrupted.with_pending
      = (inl (TypeError "list indices must be integers or slices, not str"), env') ∧
    trace env' = [EvScrape "https://cats.example"; EvScrape "https://slow.example"].
Proof.
  split; [by_compute|]. split; [by_compute|]. eexists. split; by_compute.
Qed.

(** C9, the code at the failing input: a page with an empty title element
    is extracted with [None] for its title, not a string. *)
Theorem empty_title_is_none :
  scrape_website net_get blank "https://untitled.example" fresh =
    (inr (blank, PDict [("url", PStr "https://untitled.example");
                        ("title", PNone);
                        ("content", PStr "x")]),
     after_scrape "https://untitled.example" tt fresh).
Proof. by_compute. Qed.

End ScenarioFacts.

(** * Further properties of the code *)

(** ** Building the object *)

Section InitFacts.

Context {World : Type}.

Local Abbreviation Env := (Env World).








End InitFacts.

(** ** What the answers settle, continued *)

Lemma settled_get_completed_other rs : ∀ ce u,
  u ∉ rs.*1 → Dict.get u (settled rs ce).1 = Dict.get u ce.1.
Proof.
  induction rs as [|[u0 r0] rs IH]; intros ce u Hu; [done|].
  rewrite settled_cons, IH by set_solver.
  unfold settle_dicts. simpl. destruct (classify r0); simpl; [done|].
  apply DictFacts.get_set_ne. set_solver.
Qed.

Lemma get_Some_key {V} (k : string) (v : V) d :
  Dict.get k d = Some v → k ∈ Dict.keys d.
Proof.
  intros Hget. destruct (decide (k ∈ Dict.keys d)) as [|Hno]; [done|].
  apply DictFacts.get_None in Hno. congruence.
Qed.

(** A URL answered once with a page holds its extraction. *)
Lemma settled_get_completed rs : ∀ ce u r markup,
  NoDup rs.*1 → (u, r) ∈ rs → classify r = inr markup →
  Dict.get u (settled rs ce).1 = Some (extraction u markup).
Proof.
  induction rs as [|[u0 r0] rs IH]; intros ce u r markup Hnd Hin Hr.
  - inversion Hin.
  - simpl in Hnd. apply NoDup_cons in Hnd as [Hu0 Hnd]. rewrite settled_cons.
    apply elem_of_cons in Hin as [Heq|Hin].
    + injection Heq as -> ->. rewrite settled_get_completed_other by done.
      unfold settle_dicts. simpl. rewrite Hr. simpl. apply DictFacts.get_set_eq.
    + by eapply IH.
Qed.

(** Every answered URL ends in one of the two dicts. *)
Lemma settled_covers rs ce u :
  u ∈ rs.*1 → u ∈ Dict.keys (settled rs ce).1 ∨ u ∈ Dict.keys (settled rs ce).2.
Proof.
  intros ([u' r] & -> & Hin)%list_elem_of_fmap. simpl.
  destruct (classify r) as [reason|markup] eqn:Hr.
  - right. apply settled_keys_failed. right. by exists r, reason.
  - left. apply settled_keys_completed. right. by exists r, markup.
Qed.

Lemma succeeded_spec rs u :
  u ∈ succeeded rs ↔ ∃ r markup, (u, r) ∈ rs ∧ classify r = inr markup.
Proof.
  unfold succeeded. rewrite list_elem_of_In, in_flat_map. split.
  - intros ([u' r] & Hin%list_elem_of_In & Hu). simpl in Hu.
    destruct (classify r) as [|markup] eqn:Hr; [done|].
    destruct Hu as [<-|[]]. by exists r, markup.
  - intros (r & markup & Hin & Hr). exists (u, r). split; [by apply list_elem_of_In|].
    simpl. rewrite Hr. by left.
Qed.

Lemma succeeded_NoDup rs : NoDup rs.*1 → NoDup (succeeded rs).
Proof.
  induction rs as [|[u r] rs IH]; simpl; intros Hnd; [constructor|].
  apply NoDup_cons in Hnd as [Hu Hnd]. unfold succeeded. simpl.
  fold (succeeded rs). destruct (classify r); simpl; [by apply IH|].
  apply NoDup_cons. split; [|by apply IH].
  intros (r' & mk & Hin & _)%succeeded_spec. apply Hu.
  apply list_elem_of_fmap. by exists (u, r').
Qed.

Lemma record_urls_records rs :
  record_urls (records rs) = (λ u, Some (PStr u)) <$> succeeded rs.
Proof.
  unfold record_urls, records, succeeded. induction rs as [|[u r] rs IH]; [done|].
  simpl. rewrite fmap_app, IH. unfold appended. simpl.
  by destruct (classify r).
Qed.

Lemma pending_of_nil m c e :
  (∀ k, k ∈ Dict.keys m → k ∈ Dict.keys c ∨ k ∈ Dict.keys e) →
  pending_of m c e = [].
Proof.
  intros Hall. destruct (pending_of m c e) as [|u l] eqn:Hp; [done|].
  assert (Hu : u ∈ pending_of m c e) by (rewrite Hp; left).
  apply pending_of_spec in Hu as (Hm & Hc & He). by destruct (Hall u Hm).
Qed.

Lemma records_intro rs u r markup :
  (u, r) ∈ rs → classify r = inr markup → extraction u markup ∈ records rs.
Proof.
  intros Hin Hr. unfold records. apply list_elem_of_In, in_flat_map.
  exists (u, r). split; [by apply list_elem_of_In|].
  unfold appended. simpl. rewrite Hr. by left.
Qed.

Lemma merged_get_notin topic urls : ∀ m u,
  u ∉ urls → Dict.get u (merged topic urls m) = Dict.get u m.
Proof.
  induction urls as [|u0 urls IH]; intros m u Hu; [done|].
  unfold merged in *. simpl. rewrite IH by set_solver.
  apply DictFacts.get_set_ne. set_solver.
Qed.

Lemma merged_get_in topic urls : ∀ m u,
  u ∈ urls → Dict.get u (merged topic urls m) = Some (PStr topic).
Proof.
  induction urls as [|u0 urls IH]; intros m u Hu; [inversion Hu|].
  destruct (decide (u ∈ urls)) as [Hin|Hout].
  - unfold merged in *. simpl. by apply IH.
  - assert (u = u0) as -> by set_solver.
    change (merged topic (u0 :: urls) m)
      with (merged topic urls (Dict.set u0 (PStr topic) m)).
    rewrite merged_get_notin by done. apply DictFacts.get_set_eq.
Qed.

Lemma merged_keys_prefix topic urls : ∀ m,
  Dict.keys m `prefix_of` Dict.keys (merged topic urls m).
Proof.
  induction urls as [|u0 urls IH]; intros m; [done|].
  change (merged topic (u0 :: urls) m)
    with (merged topic urls (Dict.set u0 (PStr topic) m)).
  etrans; [|apply IH].
  destruct (decide (u0 ∈ Dict.keys m)) as [Hin|Hout].
  - by rewrite DictFacts.keys_set_mem.
  - rewrite DictFacts.keys_set_fresh by done. by apply prefix_app_r.
Qed.

Lemma setitem_non_dict o k v :
  (∀ d, o ≠ PDict d) → ∃ exn, setitem o k v = inl exn ∧ exc_type exn = "TypeError".
Proof.
  intros Hno. destruct o as [| | | | |d]; try (eexists; split; reflexivity).
  by destruct (Hno d).
Qed.

(** ** Runs, resumed *)

Section ResumeFacts.

Context {World : Type}.
Variable session_get : string → World → (pyexc + response) * World.
Variable search : string → Z → World → (pyexc + list string) * World.

Local Abbreviation Env := (Env World).
Local Abbreviation process_urls := (process_urls session_get search).
Local Abbreviation reachable := (reachable session_get search).
Local Abbreviation fetches := (fetches session_get).
Local Abbreviation loop_start := (loop_start search).

(** X2.  In every reachable state the files hold what the object holds: a new
    process started on the directory, whatever its arguments, loads
    exactly the three sets; in particular what a run ends with is what
    the next process starts with. *)
Theorem restart_loads_what_was_saved self (env : Env) :
  reachable self env →
  (∀ n ts, ∃ self2,
     __init__ n ts env = (inr self2, env) ∧
     master_urls self2 = master_urls self ∧
     completed_urls self2 = completed_urls self ∧
     error_urls self2 = error_urls self) ∧
  ∃ self' env',
    process_urls self env = (inr self', env') ∧
    ∀ n ts, ∃ self2,
      __init__ n ts env' = (inr self2, env') ∧
      master_urls self2 = master_urls self' ∧
      completed_urls self2 = completed_urls self' ∧
      error_urls self2 = error_urls self'.
Proof.
  assert (Hload : ∀ self (env : Env), reachable self env → ∀ n ts, ∃ self2,
     __init__ n ts env = (inr self2, env) ∧
     master_urls self2 = master_urls self ∧
     completed_urls self2 = completed_urls self ∧
     error_urls self2 = error_urls self).
  { intros self0 env0 Hreach n ts.
    destruct (reachable_store_ok _ _ _ _ Hreach)
      as (m & c & e & Hm & Hc & He & _ & _ & Lm & Lc & Le).
    eexists. split; [by apply (init_dicts n ts env0 m c e)|]. by simpl. }
  intros Hreach. split; [by apply Hload|].
  destruct (process_urls_reachable _ _ _ _ Hreach) as (self' & env' & Hrun & Hreach').
  exists self', env'. split; [done|]. by apply Hload.
Qed.

(** X3.  A run on three dicts keeps what was there: every discovered URL stays
    with its topic, every completed entry with its result, every failed
    entry with its reason, and the output is only added to. *)
Theorem sets_only_grow self (env : Env) m c e :
  master_urls self = PDict m →
  completed_urls self = PDict c →
  error_urls self = PDict e →
  ∃ self' env' m' c' e' out,
    process_urls self env = (inr self', env') ∧
    master_urls self' = PDict m' ∧
    completed_urls self' = PDict c' ∧
    error_urls self' = PDict e' ∧
    (∀ k v, Dict.get k m = Some v → Dict.get k m' = Some v) ∧
    (∀ k v, Dict.get k c = Some v → Dict.get k c' = Some v) ∧
    (∀ k v, Dict.get k e = Some v → Dict.get k e' = Some v) ∧
    dataset env' = (dataset env ++ out)%list.
Proof.
  intros Hm Hc He.
  destruct (process_urls_loop_start session_get search self env m c e Hm Hc He)
    as (self' & env' & evs & m' & Hrun & Hm' & Hsame & _ & Hps & Hc' & He' & Hd & _).
  set (ps := (loop_start self m c e (world env)).1) in *.
  set (rs := (fetches ps (loop_start self m c e (world env)).2).1) in *.
  assert (Hurls : rs.*1 = ps) by apply fetches_urls.
  eexists self', env', m', _, _, _.
  split; [exact Hrun|]. split; [exact Hm'|]. split; [exact Hc'|]. split; [exact He'|].
  split.
  { intros k v Hk. destruct m as [|kv m0]; [done|]. by rewrite (Hsame eq_refl). }
  split.
  { intros k v Hk. rewrite <- Hk.
    apply (settled_get_completed_other rs (c, e)). rewrite Hurls.
    intros Hin%Hps. apply get_Some_key in Hk. tauto. }
  split; [|exact Hd].
  intros k v Hk. rewrite <- Hk.
  apply (settled_get_failed_other rs (c, e)). rewrite Hurls.
  intros Hin%Hps. apply get_Some_key in Hk. tauto.
Qed.

Lemma run_leaves_nothing_pending self (env : Env) m c e self' env' :
  master_urls self = PDict m →
  completed_urls self = PDict c →
  error_urls self = PDict e →
  process_urls self env = (inr self', env') →
  ∃ m' c' e',
    master_urls self' = PDict m' ∧ completed_urls self' = PDict c' ∧
    error_urls self' = PDict e' ∧ pending_of m' c' e' = [].
Proof.
  intros Hm Hc He Hrun.
  destruct (process_urls_loop_start session_get search self env m c e Hm Hc He)
    as (self2 & env2 & evs & m' & Hrun2 & Hm' & _ & _ & Hps & Hc' & He' & _).
  rewrite Hrun in Hrun2. injection Hrun2 as <- <-.
  set (ps := (loop_start self m c e (world env)).1) in *.
  set (rs := (fetches ps (loop_start self m c e (world env)).2).1) in *.
  assert (Hurls : rs.*1 = ps) by apply fetches_urls.
  eexists m', _, _. split; [exact Hm'|]. split; [exact Hc'|]. split; [exact He'|].
  apply pending_of_nil. intros k Hk.
  destruct (decide (k ∈ ps)) as [Hin|Hout].
  - apply settled_covers. by rewrite Hurls.
  - destruct (decide (k ∈ Dict.keys c)) as [Hkc|Hkc].
    { left. apply settled_keys_completed. by left. }
    destruct (decide (k ∈ Dict.keys e)) as [Hke|Hke].
    { right. apply settled_keys_failed. by left. }
    destruct Hout. by apply Hps.
Qed.

Lemma idle_when_nothing_pending self (env : Env) m c e :
  master_urls self = PDict m →
  completed_urls self = PDict c →
  error_urls self = PDict e →
  truthy (master_urls self) = true →
  pending_of m c e = [] →
  process_urls self env = (inr self, env).
Proof.
  intros Hm Hc He Ht Hnone.
  unfold process_urls. rewrite Ht. simpl negb. cbv iota.
  rewrite bind_eq. unfold ret at 1. rewrite bind_eq.
  rewrite (pending_urls_dicts self env m c e Hm Hc He), Hnone. done.
Qed.

(** X4.  Running again after a run is idle.  From a reachable state, once a
    run has returned with a non-empty discovered-set, another run, by the
    same process or by a new process started on the directory with any
    arguments, has nothing pending: it searches nothing, fetches nothing,
    writes nothing and returns the object as it is. *)
Theorem rerun_after_a_run_is_idle self (env : Env) self' env' :
  reachable self env →
  process_urls self env = (inr self', env') →
  truthy (master_urls self') = true →
  process_urls self' env' = (inr self', env') ∧
  ∀ n ts, ∃ self2,
    __init__ n ts env' = (inr self2, env') ∧
    process_urls self2 env' = (inr self2, env').
Proof.
  intros Hreach Hrun Ht.
  destruct (reachable_store_ok _ _ _ _ Hreach) as (m & c & e & Hm & Hc & He & _).
  destruct (run_leaves_nothing_pending self env m c e self' env' Hm Hc He Hrun)
    as (m' & c' & e' & Hm' & Hc' & He' & Hnone).
  split; [by apply (idle_when_nothing_pending self' env' m' c' e')|].
  intros n ts.
  destruct (process_urls_reachable _ _ _ _ Hreach) as (self2 & env2 & Hrun2 & Hreach').
  rewrite Hrun in Hrun2. injection Hrun2 as <- <-.
  destruct (reachable_store_ok _ _ _ _ Hreach')
    as (m2 & c2 & e2 & Hm2 & Hc2 & He2 & _ & _ & Lm & Lc & Le).
  rewrite Hm' in Hm2. rewrite Hc' in Hc2. rewrite He' in He2.
  injection Hm2 as <-. injection Hc2 as <-. injection He2 as <-.
  eexists. split; [by apply (init_dicts n ts env' m' c' e')|].
  apply (idle_when_nothing_pending _ env' m' c' e'); try done.
  simpl. by rewrite Hm' in Ht.
Qed.

Lemma loop_start_NoDup self m c e w :
  Dict.wf m → NoDup (loop_start self m c e w).1.
Proof.
  intros Hwf. unfold loop_start. cbv zeta. simpl fst. apply pending_of_NoDup.
  destruct m; simpl; [by apply discovered_wf|exact Hwf].
Qed.

(** X5.  No duplicate output.  On three dicts, the discovered one with
    distinct keys, the records a run appends to the dataset carry
    pairwise distinct URLs; each is the entry the run stored under its URL
    in the completed-set, for a URL that had no entry before; and every
    entry the run added to the completed-set has its record. *)
Theorem appended_records_are_the_new_entries self (env : Env) m c e :
  master_urls self = PDict m →
  completed_urls self = PDict c →
  error_urls self = PDict e →
  Dict.wf m →
  ∃ self' env' out,
    process_urls self env = (inr self', env') ∧
    dataset env' = (dataset env ++ out)%list ∧
    NoDup (record_urls out) ∧
    (∀ o, o ∈ out → ∃ u,
       item o "url" = Some (PStr u) ∧
       item (completed_urls self') u = Some o ∧
       item (completed_urls self) u = None) ∧
    (∀ u, item (completed_urls self) u = None →
          is_Some (item (completed_urls self') u) →
          ∃ o, o ∈ out ∧ item o "url" = Some (PStr u)).
Proof.
  intros Hm Hc He Hwf.
  destruct (process_urls_loop_start session_get search self env m c e Hm Hc He)
    as (self' & env' & evs & m' & Hrun & _ & _ & _ & Hps & Hc' & _ & Hd & _).
  set (ps := (loop_start self m c e (world env)).1) in *.
  set (rs := (fetches ps (loop_start self m c e (world env)).2).1) in *.
  assert (Hurls : rs.*1 = ps) by apply fetches_urls.
  assert (Hnd : NoDup rs.*1) by (rewrite Hurls; by apply loop_start_NoDup).
  exists self', env', (records rs). split; [exact Hrun|]. split; [exact Hd|].
  rewrite Hc, Hc'. simpl. split.
  { rewrite record_urls_records. apply NoDup_fmap_2; [|by apply succeeded_NoDup].
    by intros u1 u2 [= ->]. }
  split.
  - intros o (u & r & markup & Hin & Hr & ->)%records_url. exists u.
    split; [done|]. split; [by eapply settled_get_completed|].
    apply DictFacts.get_None.
    assert (Hu : u ∈ ps).
    { rewrite <- Hurls. apply list_elem_of_fmap. by exists (u, r). }
    apply Hps in Hu. tauto.
  - intros u Hno [o Ho]. apply get_Some_key in Ho.
    apply settled_keys_completed in Ho as [Ho|(r & markup & Hin & Hr)].
    + apply DictFacts.get_None in Hno. done.
    + exists (extraction u markup). split; [by eapply records_intro|done].
Qed.

(** X6.  A run on a discovered-set that is truthy but no dict (a JSON list or
    string left in the file) fails with [AttributeError] at [.keys()],
    before any fetch or write. *)
Theorem run_on_a_non_dict_fails_at_once self (env : Env) :
  truthy (master_urls self) = true →
  (∀ d, master_urls self ≠ PDict d) →
  process_urls self env =
    (inl (AttributeError
            ("'" +:+ type_name (master_urls self) +:+ "' object has no attribute 'keys'")),
     env).
Proof.
  intros Ht Hno. unfold process_urls. rewrite Ht. simpl negb. cbv iota.
  rewrite bind_eq. unfold ret at 1. rewrite bind_eq.
  unfold pending_urls. rewrite bind_eq. unfold lift.
  destruct (master_urls self) as [| | | | |d]; try done. by destruct (Hno d).
Qed.

Lemma discovered_keys ts n : ∀ m w k,
  k ∈ Dict.keys (discovered search ts n m w).1 →
  k ∈ Dict.keys m ∨
  ∃ t w0 urls w1, t ∈ ts ∧ search t n w0 = (inr urls, w1) ∧ k ∈ urls.
Proof.
  induction ts as [|t ts IH]; intros m w k Hk; [by left|].
  simpl in Hk. unfold found in Hk.
  destruct (search t n w) as [[exn|urls] w1] eqn:Hs.
  - apply IH in Hk as [Hk|(t' & w0 & urls' & w1' & Ht' & Hs' & Hin)]; [by left|].
    right. exists t', w0, urls', w1'. split; [by right|done].
  - apply IH in Hk as [Hk|(t' & w0 & urls' & w1' & Ht' & Hs' & Hin)].
    + apply merged_keys in Hk as [Hk|Hk]; [by left|].
      right. exists t, w, urls, w1. split; [by left|done].
    + right. exists t', w0, urls', w1'. split; [by right|done].
Qed.

(** X7.  Discovery errors are not fatal.  A first run (the discovered-set an
    empty dict) returns whatever the search provider does; it searches
    every topic once, in order, asking for [urls_per_topic] results, then
    scrapes; every URL it discovers was returned by the search for one of
    the topics; and when every search raises, nothing is discovered and
    nothing is scraped. *)
Theorem every_topic_is_searched self (env : Env) c e :
  master_urls self = PDict [] →
  completed_urls self = PDict c →
  error_urls self = PDict e →
  ∃ self' env' m' ps,
    process_urls self env = (inr self', env') ∧
    master_urls self' = PDict m' ∧
    trace env' = (trace env ++ searches (topics self) (urls_per_topic self)
                            ++ map EvScrape ps)%list ∧
    (∀ u, u ∈ ps → u ∈ Dict.keys m') ∧
    (∀ u, u ∈ Dict.keys m' →
       ∃ t w0 urls w1, t ∈ topics self ∧
         search t (urls_per_topic self) w0 = (inr urls, w1) ∧ u ∈ urls) ∧
    ((∀ t w0 urls w1, search t (urls_per_topic self) w0 ≠ (inr urls, w1)) →
     m' = [] ∧ ps = []).
Proof.
  intros Hm Hc He.
  destruct (process_urls_loop_start session_get search self env [] c e Hm Hc He)
    as (self' & env' & evs & m' & Hrun & Hm' & _ & _ & Hps & _ & _ & _ & Htr & Hevs & _).
  simpl in Hevs. subst evs.
  destruct (process_urls_dicts session_get search self env [] c e Hm Hc He)
    as (self2 & env2 & Hrun2 & Hm2 & _).
  rewrite Hrun in Hrun2. injection Hrun2 as <- <-. simpl in Hm2.
  rewrite Hm' in Hm2. injection Hm2 as ->.
  eexists self', env', _, (loop_start self [] c e (world env)).1.
  split; [exact Hrun|]. split; [exact Hm'|]. split; [exact Htr|].
  split. { intros u Hu%Hps. tauto. }
  assert (Hkeys : ∀ u,
    u ∈ Dict.keys (discovered search (topics self) (urls_per_topic self) [] (world env)).1 →
    ∃ t w0 urls w1, t ∈ topics self ∧
      search t (urls_per_topic self) w0 = (inr urls, w1) ∧ u ∈ urls).
  { intros u Hu. apply discovered_keys in Hu as [Hu|Hu]; [inversion Hu|done]. }
  split; [exact Hkeys|].
  intros Hall.
  assert (Hnil : (discovered search (topics self) (urls_per_topic self) [] (world env)).1
                 = []).
  { destruct (discovered search _ _ _ _).1 as [|[k v] d] eqn:Hd; [done|].
    destruct (Hkeys k) as (t & w0 & urls & w1 & _ & Hs & _); [by left|].
    by destruct (Hall t w0 urls w1). }
  split; [exact Hnil|].
  unfold loop_start. cbv zeta. simpl fst. simpl truthy. cbv iota. by rewrite Hnil.
Qed.

Lemma scrape_classify_any self url (env : Env) r w :
  session_get url (world env) = (r, w) →
  scrape_website session_get self url env =
    (match classify r with
     | inl reason =>
         match setitem (error_urls self) url (PStr reason) with
         | inl exn => inl exn
         | inr o => inr (set_error_urls self o, PNone)
         end
     | inr markup => inr (self, extraction url markup)
     end, after_scrape url w env).
Proof.
  intros Hget.
  unfold scrape_website, bind, try_except, tell, call, lift, ret, raise. simpl.
  rewrite Hget. destruct r as [exn|resp]; simpl.
  - by destruct (setitem (error_urls self) url (PStr (exc_str exn))).
  - destruct (status resp =? 200); simpl.
    + destruct (text resp) as [exn|markup]; simpl; [|done].
      by destruct (setitem (error_urls self) url (PStr (exc_str exn))).
    + by destruct (setitem (error_urls self) url _).
Qed.

(** X8.  The boundary of the handler.  When the failed-set of the object is no
    dict, a fetch that fails makes [scrape_website] raise [TypeError] out
    of its handler, files and output untouched; a fetch that succeeds
    still returns its result. *)
Theorem failed_fetch_raises_without_a_dict self url (env : Env) :
  (∀ d, error_urls self ≠ PDict d) →
  (∀ reason, classify (session_get url (world env)).1 = inl reason →
     ∃ exn, (scrape_website session_get self url env).1 = inl exn ∧
            exc_type exn = "TypeError") ∧
  (∀ markup, classify (session_get url (world env)).1 = inr markup →
     (scrape_website session_get self url env).1 = inr (self, extraction url markup)) ∧
  fs (scrape_website session_get self url env).2 = fs env ∧
  dataset (scrape_website session_get self url env).2 = dataset env.
Proof.
  intros Hno. destruct (session_get url (world env)) as [r w] eqn:Hget.
  rewrite (scrape_classify_any self url env r w Hget). simpl.
  split; [|split; [|done]].
  - intros reason ->.
    destruct (setitem_non_dict (error_urls self) url (PStr reason) Hno)
      as (exn & -> & Hty). by exists exn.
  - by intros markup ->.
Qed.


Lemma extraction_not_none url markup : extraction url markup ≠ PNone.
Proof. done. Qed.

(** X17.  On an object whose failed-set is a dict, [scrape_website] never
    raises, whatever the collaborators do, and touches neither the files
    nor the dataset.  A response with status 200 whose body decodes gives
    the extraction result, which is not [None], and leaves the object
    alone.  A fetch that raises, a status other than 200 and a body that
    fails to decode each give [None] and change the object only by the
    entry of the URL in the failed-set: the reason, [str(e)] of the
    exception or ["HTTP <status>"]; the entries of the other URLs are
    kept. *)
Theorem scrape_website_never_raises self url (env : Env) e :
  error_urls self = PDict e →
  ∃ self' result w,
    scrape_website session_get self url env = (inr (self', result), after_scrape url w env) ∧
    (∀ resp w' markup, session_get url (world env) = (inr resp, w') →
       status resp = 200 → text resp = inr markup →
       result = extraction url markup ∧ result ≠ PNone ∧ self' = self) ∧
    (∀ exn w', session_get url (world env) = (inl exn, w') →
       result = PNone ∧
       self' = set_error_urls self (PDict (Dict.set url (PStr (exc_str exn)) e))) ∧
    (∀ resp w', session_get url (world env) = (inr resp, w') → status resp ≠ 200 →
       result = PNone ∧
       self' = set_error_urls self
                 (PDict (Dict.set url (PStr ("HTTP " +:+ pretty (status resp))) e))) ∧
    (∀ resp w' exn, session_get url (world env) = (inr resp, w') → status resp = 200 →
       text resp = inl exn →
       result = PNone ∧
       self' = set_error_urls self (PDict (Dict.set url (PStr (exc_str exn)) e))) ∧
    (result = PNone →
     ∃ reason, error_urls self' = PDict (Dict.set url (PStr reason) e) ∧
               item (error_urls self') url = Some (PStr reason) ∧
               ∀ u, u ≠ url → item (error_urls self') u = Dict.get u e).
Proof.
  intros He. destruct (session_get url (world env)) as [r w] eqn:Hget.
  pose proof (scrape_classify session_get self url env e r w He Hget) as Hrun.
  assert (Hrec : ∀ reason,
            ∃ reason', error_urls (set_error_urls self (PDict (Dict.set url (PStr reason) e)))
                       = PDict (Dict.set url (PStr reason') e) ∧
              item (error_urls (set_error_urls self (PDict (Dict.set url (PStr reason) e))))
                url = Some (PStr reason') ∧
              ∀ u, u ≠ url →
                item (error_urls (set_error_urls self
                                    (PDict (Dict.set url (PStr reason) e)))) u
                = Dict.get u e).
  { intros reason. exists reason. simpl. split; [done|].
    split; [apply DictFacts.get_set_eq|].
    intros u Hu. by apply DictFacts.get_set_ne. }
  destruct r as [exn|resp]; simpl in Hrun.
  - eexists _, _, w. split; [exact Hrun|].
    split; [intros; congruence|]. split.
    { by intros exn' w' [= <- <-]. }
    split; [intros; congruence|]. split; [intros; congruence|].
    intros _. apply Hrec.
  - destruct (Z.eqb_spec (status resp) 200) as [Hst|Hst].
    + destruct (text resp) as [exn|markup] eqn:Htx.
      * eexists _, _, w. split; [exact Hrun|]. split.
        { intros resp' w' markup' [= <- <-] _ Htx'. congruence. }
        split; [intros; congruence|]. split.
        { by intros resp' w' [= <- <-] Hne. }
        split.
        { intros resp' w' exn' [= <- <-] _ Htx'. split; [done|]. congruence. }
        intros _. apply Hrec.
      * eexists _, _, w. split; [exact Hrun|]. split.
        { intros resp' w' markup' [= <- <-] _ Htx'.
          assert (markup' = markup) as -> by congruence. done. }
        split; [intros; congruence|]. split.
        { by intros resp' w' [= <- <-] Hne. }
        split.
        { intros resp' w' exn' [= <- <-] _ Htx'. congruence. }
        intros Hnone. by destruct (extraction_not_none url markup).
    + eexists _, _, w. split; [exact Hrun|]. split.
      { by intros resp' w' markup' [= <- <-] Hst'. }
      split; [intros; congruence|]. split.
      { by intros resp' w' [= <- <-] _. }
      split.
      { by intros resp' w' exn' [= <- <-] Hst'. }
      intros _. apply Hrec.
Qed.

(** X18.  On an object whose failed-set is a dict, success is a status of
    exactly 200.  A response with any other status (201 and 204 included)
    makes the call return [None] with ["HTTP <status>"] recorded under
    the URL in the failed-set; a response with status 200 whose body
    decodes makes it return the extraction result, nothing recorded; and
    a call that returns anything but [None] got a response with status
    200. *)
Theorem only_status_200_succeeds self url (env : Env) e resp w :
  error_urls self = PDict e →
  session_get url (world env) = (inr resp, w) →
  (status resp ≠ 200 →
   scrape_website session_get self url env =
     (inr (set_error_urls self
             (PDict (Dict.set url (PStr ("HTTP " +:+ pretty (status resp))) e)), PNone),
      after_scrape url w env) ∧
   item (PDict (Dict.set url (PStr ("HTTP " +:+ pretty (status resp))) e)) url =
     Some (PStr ("HTTP " +:+ pretty (status resp)))) ∧
  (status resp = 200 → ∀ markup, text resp = inr markup →
   scrape_website session_get self url env =
     (inr (self, extraction url markup), after_scrape url w env) ∧
   extraction url markup ≠ PNone) ∧
  (∀ self' result env',
     scrape_website session_get self url env = (inr (self', result), env') →
     result ≠ PNone → status resp = 200).
Proof.
  intros He Hget. split; [|split].
  - intros Hst. split; [by apply scrape_status_not_200|].
    simpl. apply DictFacts.get_set_eq.
  - intros Hst markup Htx. split; [by eapply scrape_success|done].
  - intros self' result env' Hrun Hres.
    destruct (Z.eq_dec (status resp) 200) as [|Hst]; [done|].
    rewrite (scrape_status_not_200 session_get self url env e resp w He Hget Hst) in Hrun.
    congruence.
Qed.

(** X10.  One pass of the discovery loop on a dict: it returns whatever the
    search does; every URL the search returned is recorded under this
    topic (a URL recorded under an earlier topic is overwritten, in its
    place), every other entry is left as it was, the earlier keys stay
    first and in order, and the file holds the new discovered-set; a
    search that raises adds nothing. *)
Theorem collect_topic_records_the_topic topic self (env : Env) m :
  master_urls self = PDict m →
  ∃ self' env' m',
    collect_topic search topic self env = (inr self', env') ∧
    master_urls self' = PDict m' ∧
    fs env' !! master_file = Some (JsonDoc (PDict m')) ∧
    Dict.keys m `prefix_of` Dict.keys m' ∧
    (∀ urls w, search topic (urls_per_topic self) (world env) = (inr urls, w) →
       (∀ u, u ∈ urls → Dict.get u m' = Some (PStr topic)) ∧
       (∀ u, u ∉ urls → Dict.get u m' = Dict.get u m)) ∧
    (∀ exn w, search topic (urls_per_topic self) (world env) = (inl exn, w) →
       m' = m).
Proof.
  intros Hm. rewrite (collect_topic_dict search topic self env m Hm). cbv zeta.
  eexists _, _, _. split; [reflexivity|]. split; [reflexivity|].
  split. { simpl. by rewrite lookup_insert_eq. }
  split; [apply merged_keys_prefix|]. unfold found. split.
  - intros urls w ->. simpl. split.
    + intros u Hu. by apply merged_get_in.
    + intros u Hu. by apply merged_get_notin.
  - by intros exn w ->.
Qed.

End ResumeFacts.

(** ** Stripping and splitting *)


















(** ** The command line, continued *)

Section TopicFacts.

Context {World : Type}.
Variable session_get : string → World → (pyexc + response) * World.
Variable search : string → Z → World → (pyexc + list string) * World.
Variable yaml_safe_load : file_body → pyexc + pyobj.
Variable read : file_body → pyexc + string.
Variable re_findall_bullets : string → list string.
Variable os_exists : string → World → pyexc + bool.

Local Abbreviation Env := (Env World).
Local Abbreviation main :=
  (main session_get search yaml_safe_load read re_findall_bullets os_exists).
Local Abbreviation load_topics_from_file :=
  (load_topics_from_file yaml_safe_load read re_findall_bullets os_exists).
Local Abbreviation path_exists := (path_exists os_exists).

Lemma path_exists_eq p (env : Env) body :
  fs env !! p = Some body → path_exists p env = (inr true, env).
Proof. intros Hbody. unfold path_exists. by rewrite Hbody. Qed.

Lemma load_topics_json path (env : Env) body :
  path_suffix path = ".json" →
  fs env !! path = Some body →
  load_topics_from_file path env =
    (match json_load body with
     | inl exn => inl exn
     | inr data => topics_of_data "JSON" data
     end, env).
Proof.
  intros Hsuf Hbody. unfold load_topics_from_file.
  rewrite bind_eq, (path_exists_eq _ _ _ Hbody).
  cbv zeta. rewrite Hsuf. change (negb true) with false.
  change (".json" =? ".json")%string with true. cbv beta iota.
  rewrite bind_eq. unfold open_read. rewrite Hbody.
  rewrite bind_eq. unfold lift. by destruct (json_load body).
Qed.

Lemma load_topics_yaml path (env : Env) body :
  path_suffix path = ".yaml" ∨ path_suffix path = ".yml" →
  fs env !! path = Some body →
  load_topics_from_file path env =
    (match yaml_safe_load body with
     | inl exn => inl exn
     | inr data => topics_of_data "YAML" data
     end, env).
Proof.
  intros Hsuf Hbody. unfold load_topics_from_file.
  rewrite bind_eq, (path_exists_eq _ _ _ Hbody).
  cbv zeta. change (negb true) with false. cbv beta iota.
  destruct Hsuf as [-> | ->].
  - change (".yaml" =? ".json")%string with false.
    change (".yaml" =? ".yaml")%string with true. cbv beta iota.
    rewrite orb_true_l.
    rewrite bind_eq. unfold open_read. rewrite Hbody.
    rewrite bind_eq. unfold lift. by destruct (yaml_safe_load body).
  - change (".yml" =? ".json")%string with false.
    change (".yml" =? ".yaml")%string with false.
    change (".yml" =? ".yml")%string with true. cbv beta iota.
    rewrite orb_false_l.
    rewrite bind_eq. unfold open_read. rewrite Hbody.
    rewrite bind_eq. unfold lift. by destruct (yaml_safe_load body).
Qed.

(** X11.  The structured topic files.  For a .json file (and, on what
    [yaml.safe_load] returns, for a .yaml or .yml file) the loader returns
    a list as it is, whatever its items; for a dict with a ['topics']
    entry it returns that entry, whatever it is; for a dict without one
    and for any other document it raises [ValueError]; text that is no
    JSON document raises [JSONDecodeError], and bytes that are no text
    raise [UnicodeDecodeError].  The environment is left as it was in
    every case. *)
Theorem structured_topics_shape path (env : Env) body :
  fs env !! path = Some body →
  (path_suffix path = ".json" →
   (load_topics_from_file path env).2 = env ∧
   (∀ s, body = PlainText s →
      ∃ exn, (load_topics_from_file path env).1 = inl exn ∧
             exc_type exn = "JSONDecodeError") ∧
   (∀ b, body = Undecodable b →
      ∃ exn, (load_topics_from_file path env).1 = inl exn ∧
             exc_type exn = "UnicodeDecodeError") ∧
   (∀ l, body = JsonDoc (PList l) →
      (load_topics_from_file path env).1 = inr (PList l)) ∧
   (∀ d ts, body = JsonDoc (PDict d) → Dict.get "topics" d = Some ts →
      (load_topics_from_file path env).1 = inr ts) ∧
   (∀ v, body = JsonDoc v → (∀ l, v ≠ PList l) →
      (∀ d, v = PDict d → Dict.get "topics" d = None) →
      (load_topics_from_file path env).1 =
        inl (ValueError "JSON file must contain a list or a dict with 'topics' key"))) ∧
  (path_suffix path = ".yaml" ∨ path_suffix path = ".yml" →
   (load_topics_from_file path env).2 = env ∧
   (∀ l, yaml_safe_load body = inr (PList l) →
      (load_topics_from_file path env).1 = inr (PList l)) ∧
   (∀ d ts, yaml_safe_load body = inr (PDict d) → Dict.get "topics" d = Some ts →
      (load_topics_from_file path env).1 = inr ts) ∧
   (∀ v, yaml_safe_load body = inr v → (∀ l, v ≠ PList l) →
      (∀ d, v = PDict d → Dict.get "topics" d = None) →
      (load_topics_from_file path env).1 =
        inl (ValueError "YAML file must contain a list or a dict with 'topics' key"))).
Proof.
  intros Hbody. split.
  - intros Hsuf. rewrite (load_topics_json path env body Hsuf Hbody). simpl.
    split; [done|]. split.
    { intros s ->. simpl. by eexists. }
    split.
    { intros b ->. simpl. by eexists. }
    split. { by intros l ->. }
    split. { intros d ts -> Hts. simpl. by rewrite Hts. }
    intros v -> Hl Hd. simpl. destruct v as [| | | |l|d]; try done.
    + by destruct (Hl l).
    + simpl. by rewrite (Hd d eq_refl).
  - intros Hsuf. rewrite (load_topics_yaml path env body Hsuf Hbody). simpl.
    split; [done|].
    split. { by intros l ->. }
    split. { intros d ts -> Hts. simpl. by rewrite Hts. }
    intros v -> Hl Hd. destruct v as [| | | |l|d]; try done.
    + by destruct (Hl l).
    + simpl. by rewrite (Hd d eq_refl).
Qed.








End TopicFacts.

(** ** The topics of the object *)

Section InitTopics.

Context {World : Type}.


End InitTopics.

(** ** The scenario, run further *)

Module MoreScenarioFacts.
Import Scenario Corrupted TopicFiles.

Lemma disk_ok_fresh : disk_ok (fs fresh).
Proof.
  exists [], [], []. repeat split; try reflexivity.
  - apply NoDup_nil_2.
  - intros k Hk. inversion Hk.
Qed.

Lemma reachable_blank : reachable net_get net_search blank fresh.
Proof.
  apply (reach_init net_get net_search 10 "cats, dogs,birds" fresh blank fresh).
  - apply disk_ok_fresh.
  - by_compute.
Qed.

Lemma reachable_resumed : reachable net_get net_search loaded resumed.
Proof.
  apply (reach_init net_get net_search 10 "cats,dogs,birds" resumed loaded resumed).
  - exists discovered_items, completed_items, failed_items.
    split; [by_compute|]. split; [by_compute|]. split; [by_compute|].
    split; [unfold Dict.wf; decide_it|].
    intros k Hc He. vm_compute in Hc, He. set_solver.
  - by_compute.
Qed.


(** A process started later on the earlier run's files, with other
    arguments, holds the same three sets. *)
Lemma restart_loads_what_was_saved_witness :
  ∃ self2,
    __init__ 5 "birds" resumed = (inr self2, resumed) ∧
    master_urls self2 = PDict discovered_items ∧
    completed_urls self2 = PDict completed_items ∧
    error_urls self2 = PDict failed_items.
Proof.
  destruct (restart_loads_what_was_saved net_get net_search loaded resumed
              reachable_resumed) as [Hload _].
  destruct (Hload 5 "birds") as (self2 & Hinit & Hm & Hc & He).
  exists self2. split; [exact Hinit|]. split; [exact Hm|]. split; [exact Hc|exact He].
Defined.

(** The completed entry of the earlier run is still there after the run. *)
Lemma sets_only_grow_witness :
  ∃ self' env' c',
    process_urls net_get net_search loaded resumed = (inr self', env') ∧
    completed_urls self' = PDict c' ∧
    Dict.get "https://cats.example" c' = Dict.get "https://cats.example" completed_items.
Proof.
  destruct (sets_only_grow net_get net_search loaded resumed
              discovered_items completed_items failed_items eq_refl eq_refl eq_refl)
    as (self' & env' & m' & c' & e' & out & Hrun & _ & Hc' & _ & _ & Hkeep & _).
  exists self', env', c'. split; [exact Hrun|]. split; [exact Hc'|].
  rewrite (Hkeep "https://cats.example" _ eq_refl). reflexivity.
Defined.

(** After the first run a second one changes nothing. *)
Lemma rerun_after_a_run_is_idle_witness :
  ∃ self' env',
    process_urls net_get net_search blank fresh = (inr self', env') ∧
    process_urls net_get net_search self' env' = (inr self', env').
Proof.
  assert (∃ self' env',
            process_urls net_get net_search blank fresh = (inr self', env') ∧
            truthy (master_urls self') = true) as (self' & env' & Hrun & Ht).
  { eexists _, _. split; by_compute. }
  exists self', env'. split; [exact Hrun|].
  exact (proj1 (rerun_after_a_run_is_idle net_get net_search blank fresh self' env'
                  reachable_blank Hrun Ht)).
Defined.

(** The first run appends records with distinct URLs. *)
Lemma appended_records_are_the_new_entries_witness :
  ∃ self' env' out,
    process_urls net_get net_search blank fresh = (inr self', env') ∧
    dataset env' = out ∧ NoDup (record_urls out).
Proof.
  destruct (appended_records_are_the_new_entries net_get net_search blank fresh
              [] [] [] eq_refl eq_refl eq_refl (NoDup_nil_2 : Dict.wf []))
    as (self' & env' & out & Hrun & Hd & Hnd & _).
  exists self', env', out. split; [exact Hrun|]. split; [exact Hd|exact Hnd].
Defined.

(** A discovered-set that is a list stops the run at once. *)
Lemma run_on_a_non_dict_fails_at_once_witness :
  process_urls net_get net_search listed fresh =
    (inl (AttributeError "'list' object has no attribute 'keys'"), fresh).
Proof.
  apply (run_on_a_non_dict_fails_at_once net_get net_search listed fresh).
  - reflexivity.
  - intros d. discriminate.
Defined.

(** The first run searches the three topics, the third search failing. *)
Lemma every_topic_is_searched_witness :
  ∃ self' env' ps,
    process_urls net_get net_search blank fresh = (inr self', env') ∧
    trace env' = ([EvSearch "cats" 3; EvSearch "dogs" 3; EvSearch "birds" 3]
                  ++ map EvScrape ps)%list.
Proof.
  destruct (every_topic_is_searched net_get net_search blank fresh [] []
              eq_refl eq_refl eq_refl)
    as (self' & env' & m' & ps & Hrun & _ & Htr & _).
  exists self', env', ps. split; [exact Hrun|exact Htr].
Defined.

(** With a list for failed-set, the timeout raises out of the call. *)
Lemma failed_fetch_raises_without_a_dict_witness :
  ∃ exn, (scrape_website net_get unlisted "https://slow.example" fresh).1 = inl exn ∧
         exc_type exn = "TypeError".
Proof.
  destruct (failed_fetch_raises_without_a_dict net_get unlisted
              "https://slow.example" fresh) as (Hfail & _).
  - intros d. discriminate.
  - exact (Hfail "" eq_refl).
Defined.


(** A timeout is returned as [None], its (empty) reason recorded. *)
Lemma scrape_website_never_raises_witness :
  ∃ self' env',
    scrape_website net_get blank "https://slow.example" fresh = (inr (self', PNone), env') ∧
    item (error_urls self') "https://slow.example" = Some (PStr "").
Proof.
  destruct (scrape_website_never_raises net_get blank "https://slow.example" fresh []
              eq_refl) as (self' & result & w & Hrun & _ & Hexn & _).
  destruct (Hexn (PyExc "TimeoutError" "") tt eq_refl) as [-> ->].
  eexists _, _. split; [exact Hrun|]. reflexivity.
Defined.

(** A 204 is a failure, a 200 a success. *)
Lemma only_status_200_succeeds_witness :
  scrape_website net_get blank "https://empty.example" fresh =
    (inr (set_error_urls blank (PDict [("https://empty.example", PStr "HTTP 204")]), PNone),
     after_scrape "https://empty.example" tt fresh) ∧
  scrape_website net_get blank "https://cats.example" fresh =
    (inr (blank, extraction "https://cats.example" page),
     after_scrape "https://cats.example" tt fresh).
Proof.
  destruct (only_status_200_succeeds net_get blank "https://empty.example" fresh []
              (Response 204 (inr [])) tt eq_refl eq_refl) as (H204 & _).
  destruct (only_status_200_succeeds net_get blank "https://cats.example" fresh []
              (Response 200 (inr page)) tt eq_refl eq_refl) as (_ & H200 & _).
  split.
  - destruct H204 as [Hrun _]; [discriminate|]. exact Hrun.
  - exact (proj1 (H200 eq_refl page eq_refl)).
Defined.

(** The search for cats records its two URLs under that topic. *)
Lemma collect_topic_records_the_topic_witness :
  ∃ self' env' m',
    collect_topic net_search "cats" blank fresh = (inr self', env') ∧
    master_urls self' = PDict m' ∧
    Dict.get "https://slow.example" m' = Some (PStr "cats").
Proof.
  destruct (collect_topic_records_the_topic net_search "cats" blank fresh [] eq_refl)
    as (self' & env' & m' & Hrun & Hm' & _ & _ & Hok & _).
  exists self', env', m'. split; [exact Hrun|]. split; [exact Hm'|].
  destruct (Hok ["https://cats.example"; "https://slow.example"] tt eq_refl) as [Hin _].
  apply Hin. set_solver.
Defined.

(** The dict file gives its topics entry. *)
Lemma structured_topics_shape_witness :
  (load_topics_from_file no_yaml raw_text no_bullets plain_dir "named.json" with_topics).1
  = inr (PList [PStr "cats"]).
Proof.
  destruct (structured_topics_shape no_yaml raw_text no_bullets plain_dir "named.json" with_topics
              (JsonDoc (PDict [("topics", PList [PStr "cats"])])) eq_refl)
    as [Hjson _].
  destruct (Hjson eq_refl) as (_ & _ & _ & _ & Hdict & _).
  exact (Hdict [("topics", PList [PStr "cats"])] _ eq_refl eq_refl).
Defined.






End MoreScenarioFacts.
